(** * Verification of the WSG command-frame encoder

    Shallow embedding of [wsg_command_message.h] (namespace
    [schunk_driver]): the CRC lookup table, [checksum_update_crc16], and
    the class [WsgCommandMessage] with its constructor and [Serialize].

    Conventions of the embedding.
    - A C++ integer of width w is a [Z]; every conversion the source
      performs (to [unsigned char], [uint16_t], [int], [size_t]) is
      written out as the corresponding wrap-around.
    - A byte array ([unsigned char*], [std::vector<unsigned char>]) is a
      [list Z]; indexing is stdpp's list lookup and insert, with an access
      out of range made explicit as [Undefined].
    - A call either returns, throws, or has no defined behaviour:
      type [outcome]. *)

From Stdlib Require Import ZArith Lia List.
From stdpp Require Import base list.
Import ListNotations.
Local Open Scope Z_scope.

(** ** Fixed-width integers *)

Module CInt.

(** Conversion to [unsigned char]. *)
Definition to_uchar (x : Z) : Z := x mod 2 ^ 8.

(** Conversion to [uint16_t]. *)
Definition to_uint16 (x : Z) : Z := x mod 2 ^ 16.

(** Conversion to [size_t] (64 bits). *)
Definition to_size_t (x : Z) : Z := x mod 2 ^ 64.

(** Conversion to [int] (32 bits, two's complement). *)
Definition to_int (x : Z) : Z := (x + 2 ^ 31) mod 2 ^ 32 - 2 ^ 31.

Definition is_uchar (x : Z) : Prop := 0 <= x < 2 ^ 8.
Definition is_uint16 (x : Z) : Prop := 0 <= x < 2 ^ 16.
Definition is_int (x : Z) : Prop := - 2 ^ 31 <= x < 2 ^ 31.

End CInt.
Import CInt.

(** ** Results of a call *)

(** [InvalidArgument] is the condition the specification names;
    [length_error] is what [std::vector::resize] throws when the requested
    size exceeds [max_size ()]. *)
Inductive exception : Set :=
  | InvalidArgument
  | length_error.

Inductive outcome (A : Type) : Type :=
  | Returns (a : A)
  | Throws (e : exception)
  | Undefined.
Arguments Returns {A} a.
Arguments Throws {A} e.
Arguments Undefined {A}.

(** Sequencing: an exception or undefined behaviour ends the call. *)
#[export] Instance outcome_ret : MRet outcome := fun A a => Returns a.
#[export] Instance outcome_bind : MBind outcome := fun A B k c =>
  match c with
  | Returns a => k a
  | Throws e => Throws e
  | Undefined => Undefined
  end.

(** ** The checksum *)

Definition CRC_TABLE : list Z := [
  0x0000; 0x1021; 0x2042; 0x3063; 0x4084; 0x50a5; 0x60c6; 0x70e7;
  0x8108; 0x9129; 0xa14a; 0xb16b; 0xc18c; 0xd1ad; 0xe1ce; 0xf1ef;
  0x1231; 0x0210; 0x3273; 0x2252; 0x52b5; 0x4294; 0x72f7; 0x62d6;
  0x9339; 0x8318; 0xb37b; 0xa35a; 0xd3bd; 0xc39c; 0xf3ff; 0xe3de;
  0x2462; 0x3443; 0x0420; 0x1401; 0x64e6; 0x74c7; 0x44a4; 0x5485;
  0xa56a; 0xb54b; 0x8528; 0x9509; 0xe5ee; 0xf5cf; 0xc5ac; 0xd58d;
  0x3653; 0x2672; 0x1611; 0x0630; 0x76d7; 0x66f6; 0x5695; 0x46b4;
  0xb75b; 0xa77a; 0x9719; 0x8738; 0xf7df; 0xe7fe; 0xd79d; 0xc7bc;
  0x48c4; 0x58e5; 0x6886; 0x78a7; 0x0840; 0x1861; 0x2802; 0x3823;
  0xc9cc; 0xd9ed; 0xe98e; 0xf9af; 0x8948; 0x9969; 0xa90a; 0xb92b;
  0x5af5; 0x4ad4; 0x7ab7; 0x6a96; 0x1a71; 0x0a50; 0x3a33; 0x2a12;
  0xdbfd; 0xcbdc; 0xfbbf; 0xeb9e; 0x9b79; 0x8b58; 0xbb3b; 0xab1a;
  0x6ca6; 0x7c87; 0x4ce4; 0x5cc5; 0x2c22; 0x3c03; 0x0c60; 0x1c41;
  0xedae; 0xfd8f; 0xcdec; 0xddcd; 0xad2a; 0xbd0b; 0x8d68; 0x9d49;
  0x7e97; 0x6eb6; 0x5ed5; 0x4ef4; 0x3e13; 0x2e32; 0x1e51; 0x0e70;
  0xff9f; 0xefbe; 0xdfdd; 0xcffc; 0xbf1b; 0xaf3a; 0x9f59; 0x8f78;
  0x9188; 0x81a9; 0xb1ca; 0xa1eb; 0xd10c; 0xc12d; 0xf14e; 0xe16f;
  0x1080; 0x00a1; 0x30c2; 0x20e3; 0x5004; 0x4025; 0x7046; 0x6067;
  0x83b9; 0x9398; 0xa3fb; 0xb3da; 0xc33d; 0xd31c; 0xe37f; 0xf35e;
  0x02b1; 0x1290; 0x22f3; 0x32d2; 0x4235; 0x5214; 0x6277; 0x7256;
  0xb5ea; 0xa5cb; 0x95a8; 0x8589; 0xf56e; 0xe54f; 0xd52c; 0xc50d;
  0x34e2; 0x24c3; 0x14a0; 0x0481; 0x7466; 0x6447; 0x5424; 0x4405;
  0xa7db; 0xb7fa; 0x8799; 0x97b8; 0xe75f; 0xf77e; 0xc71d; 0xd73c;
  0x26d3; 0x36f2; 0x0691; 0x16b0; 0x6657; 0x7676; 0x4615; 0x5634;
  0xd94c; 0xc96d; 0xf90e; 0xe92f; 0x99c8; 0x89e9; 0xb98a; 0xa9ab;
  0x5844; 0x4865; 0x7806; 0x6827; 0x18c0; 0x08e1; 0x3882; 0x28a3;
  0xcb7d; 0xdb5c; 0xeb3f; 0xfb1e; 0x8bf9; 0x9bd8; 0xabbb; 0xbb9a;
  0x4a75; 0x5a54; 0x6a37; 0x7a16; 0x0af1; 0x1ad0; 0x2ab3; 0x3a92;
  0xfd2e; 0xed0f; 0xdd6c; 0xcd4d; 0xbdaa; 0xad8b; 0x9de8; 0x8dc9;
  0x7c26; 0x6c07; 0x5c64; 0x4c45; 0x3ca2; 0x2c83; 0x1ce0; 0x0cc1;
  0xef1f; 0xff3e; 0xcf5d; 0xdf7c; 0xaf9b; 0xbfba; 0x8fd9; 0x9ff8;
  0x6e17; 0x7e36; 0x4e55; 0x5e74; 0x2e93; 0x3eb2; 0x0ed1; 0x1ef0
].

(** [CRC_TABLE[i]]: the index is always masked with [0x00FF] by the caller. *)
Definition CRC_TABLE_at (i : Z) : Z := nth (Z.to_nat i) CRC_TABLE 0.

(** One iteration of the loop body,
    [crc = CRC_TABLE[(crc ^ *(data++)) & 0x00FF] ^ (crc >> 8)],
    the assignment converting the [int] result back to [uint16_t]. *)
Definition crc16_step (crc b : Z) : Z :=
  to_uint16 (Z.lxor (CRC_TABLE_at (Z.land (Z.lxor crc b) 0x00FF)) (Z.shiftr crc 8)).

(** The [for] loop: [n] iterations remain, [data] is what the moving
    pointer still has in front of it. Reading past the end of the array is
    undefined. *)
Fixpoint crc16_loop (n : nat) (data : list Z) (crc : Z) : outcome Z :=
  match n with
  | O => Returns crc
  | S n' =>
      match data with
      | [] => Undefined
      | b :: data' => crc16_loop n' data' (crc16_step crc b)
      end
  end.

(** [uint16_t checksum_update_crc16(unsigned char *data, int size)].
    A [size] that is zero or negative runs no iteration. *)
Definition checksum_update_crc16 (data : list Z) (size : Z) : outcome Z :=
  crc16_loop (Z.to_nat size) data 0xFFFF.

(** ** Library calls on byte arrays *)

(** Implementation limit of [std::vector<unsigned char>::max_size ()]
    (the largest [ptrdiff_t] on the 64-bit targets of the driver). *)
Definition vector_max_size : Z := 2 ^ 63 - 1.

(** [v.resize(n)]: keeps the first [n] elements and value-initialises
    the new ones; throws when [n] exceeds [max_size ()]. *)
Definition vector_resize (v : list Z) (n : Z) : outcome (list Z) :=
  if decide (vector_max_size < n) then Throws length_error
  else Returns (resize (Z.to_nat n) 0 v).

(** [memcpy(dst + off, src, n)]: both ranges have to lie inside their
    arrays. *)
Definition memcpy (dst : list Z) (off : nat) (src : list Z) (n : Z) : outcome (list Z) :=
  let k := Z.to_nat n in
  if decide (k <= length src /\ off + k <= length dst)%nat
  then Returns (take off dst ++ take k src ++ drop (off + k) dst)
  else Undefined.

(** ** The class [WsgCommandMessage] *)

Record WsgCommandMessage : Type := {
  command_ : Z;            (* const int command_ *)
  payload_ : list Z        (* std::vector<unsigned char> payload_ *)
}.

(** [payload_.size()], a [size_t]. *)
Definition payload_size (m : WsgCommandMessage) : Z :=
  Z.of_nat (length (payload_ m)).

(** [WsgCommandMessage(int command, unsigned char* payload, int size)].
    [payload] is the caller's array behind the pointer; [size] is converted
    to [size_t] by both library calls. *)
Definition WsgCommandMessage_new (command : Z) (payload : list Z) (size : Z)
  : outcome WsgCommandMessage :=
  v ← vector_resize [] (to_size_t size);
  v ← memcpy v 0 payload (to_size_t size);
  mret {| command_ := command; payload_ := v |}.

(** What [Serialize] can touch: the object it is called on and the
    caller's vector passed by reference. *)
Record memory : Type := {
  this : WsgCommandMessage;
  buffer : list Z
}.

(** [buffer.resize(n)] *)
Definition buffer_resize (n : Z) (s : memory) : outcome memory :=
  v ← vector_resize (buffer s) n;
  mret {| this := this s; buffer := v |}.

(** [buffer[i] = v], the value converted to [unsigned char];
    [operator[]] is unchecked, so an index past the end is undefined. *)
Definition buffer_store (i v : Z) (s : memory) : outcome memory :=
  if decide (Z.to_nat i < length (buffer s))%nat
  then Returns {| this := this s; buffer := <[Z.to_nat i := to_uchar v]> (buffer s) |}
  else Undefined.

(** [memcpy(buffer.data() + off, src, n)] *)
Definition buffer_memcpy (off : nat) (src : list Z) (n : Z) (s : memory) : outcome memory :=
  v ← memcpy (buffer s) off src n;
  mret {| this := this s; buffer := v |}.

(** [void Serialize(std::vector<unsigned char>& buffer) const] *)
Definition Serialize (s : memory) : outcome memory :=
  s ← buffer_resize (to_size_t (payload_size (this s) + 8)) s;
  s ← buffer_store 0 0xaa s;
  s ← buffer_store 1 0xaa s;
  s ← buffer_store 2 0xaa s;
  s ← buffer_store 3 (Z.land (command_ (this s)) 0xff) s;
  s ← buffer_store 4 (Z.land (payload_size (this s)) 0xFF) s;
  s ← buffer_store 5 (Z.land (to_size_t (Z.shiftl (payload_size (this s)) 8)) 0xFF) s;
  s ← buffer_memcpy 6 (payload_ (this s)) (payload_size (this s)) s;
  crc ← checksum_update_crc16 (buffer s) (to_int (to_size_t (payload_size (this s) + 6)));
  s ← buffer_store (to_size_t (payload_size (this s) + 6)) (Z.land crc 0xFF) s;
  buffer_store (to_size_t (payload_size (this s) + 7)) (Z.land (Z.shiftr crc 8) 0xFF) s.

(** ** The enumerations *)

(** [StatusCode]. No enumerator has an initialiser except the first, so
    each one is its predecessor plus one. *)
Inductive StatusCode : Set :=
  | E_SUCCESS | E_NOT_AVAILABLE | E_NO_SENSOR | E_NOT_INITIALIZED
  | E_ALREADY_RUNNING | E_FEATURE_NOT_SUPPORTED | E_INCONSISTENT_DATA
  | E_TIMEOUT | E_READ_ERROR | E_WRITE_ERROR | E_INSUFFICIENT_RESOURCES
  | E_CHECKSUM_ERROR | E_NO_PARAM_EXPECTED | E_NOT_ENOUGH_PARAMS
  | E_CMD_UNKNOWN | E_CMD_FORMAT_ERROR | E_ACCESS_DENIED | E_ALREADY_OPEN
  | E_CMD_FAILED | E_CMD_ABORTED | E_INVALID_HANDLE | E_NOT_FOUND
  | E_NOT_OPEN | E_IO_ERROR | E_INVALID_PARAMETER | E_INDEX_OUT_OF_BOUNDS
  | E_CMD_PENDING | E_OVERRUN | E_RANGE_ERROR | E_AXIS_BLOCKED
  | E_FILE_EXISTS.

Definition StatusCode_value (e : StatusCode) : Z :=
  match e with
  | E_SUCCESS => 0
  | E_NOT_AVAILABLE => 1
  | E_NO_SENSOR => 2
  | E_NOT_INITIALIZED => 3
  | E_ALREADY_RUNNING => 4
  | E_FEATURE_NOT_SUPPORTED => 5
  | E_INCONSISTENT_DATA => 6
  | E_TIMEOUT => 7
  | E_READ_ERROR => 8
  | E_WRITE_ERROR => 9
  | E_INSUFFICIENT_RESOURCES => 10
  | E_CHECKSUM_ERROR => 11
  | E_NO_PARAM_EXPECTED => 12
  | E_NOT_ENOUGH_PARAMS => 13
  | E_CMD_UNKNOWN => 14
  | E_CMD_FORMAT_ERROR => 15
  | E_ACCESS_DENIED => 16
  | E_ALREADY_OPEN => 17
  | E_CMD_FAILED => 18
  | E_CMD_ABORTED => 19
  | E_INVALID_HANDLE => 20
  | E_NOT_FOUND => 21
  | E_NOT_OPEN => 22
  | E_IO_ERROR => 23
  | E_INVALID_PARAMETER => 24
  | E_INDEX_OUT_OF_BOUNDS => 25
  | E_CMD_PENDING => 26
  | E_OVERRUN => 27
  | E_RANGE_ERROR => 28
  | E_AXIS_BLOCKED => 29
  | E_FILE_EXISTS => 30
  end.

(** [StateFlag]. Bits 8, 10, 11 and 21 to 31 are reserved. *)
Inductive StateFlag : Set :=
  | SF_SCRIPT_FAILURE | SF_SCRIPT_RUNNING | SF_CMD_FAILURE | SF_FINGER_FAULT
  | SF_CURR_FAULT | SF_POWER_FAULT | SF_TEMP_FAULT | SF_TEMP_WARNING
  | SF_FAST_STOP | SF_FORCECNTL_MODE | SF_TARGET_POS_REACHED | SF_AXIS_STOPPED
  | SF_SOFT_LIMIT_PLUS | SF_SOFT_LIMIT_MINUS | SF_BLOCKED_PLUS
  | SF_BLOCKED_MINUS | SF_MOVING | SF_REFERENCED.

Definition StateFlag_value (f : StateFlag) : Z :=
  match f with
  | SF_SCRIPT_FAILURE => Z.shiftl 1 20
  | SF_SCRIPT_RUNNING => Z.shiftl 1 19
  | SF_CMD_FAILURE => Z.shiftl 1 18
  | SF_FINGER_FAULT => Z.shiftl 1 17
  | SF_CURR_FAULT => Z.shiftl 1 16
  | SF_POWER_FAULT => Z.shiftl 1 15
  | SF_TEMP_FAULT => Z.shiftl 1 14
  | SF_TEMP_WARNING => Z.shiftl 1 13
  | SF_FAST_STOP => Z.shiftl 1 12
  | SF_FORCECNTL_MODE => Z.shiftl 1 9
  | SF_TARGET_POS_REACHED => Z.shiftl 1 7
  | SF_AXIS_STOPPED => Z.shiftl 1 6
  | SF_SOFT_LIMIT_PLUS => Z.shiftl 1 5
  | SF_SOFT_LIMIT_MINUS => Z.shiftl 1 4
  | SF_BLOCKED_PLUS => Z.shiftl 1 3
  | SF_BLOCKED_MINUS => Z.shiftl 1 2
  | SF_MOVING => Z.shiftl 1 1
  | SF_REFERENCED => Z.shiftl 1 0
  end.

(** [Command] *)
Inductive Command : Set :=
  | kLoop | kDisconnectAnnounce | kHome | kPrePosition | kStop | kFastStop
  | kAcknowledgeStopOrFault | kGrasp | kRelease | kSetAccel | kGetAccel
  | kSetForceLimit | kGetForceLimit | kSetSoftLimits | kGetSoftLimits
  | kClearSoftLimits | kTareForceSensor | kGetSystemState | kGetGraspState
  | kGetGraspStats | kGetOpeningWidth | kGetSpeed | kGetForce
  | kGetTemperature | kGetSystemInfo | kSetDeviceTag | kGetDeviceTag
  | kGetSystemLimits | kGetFingerInfo | kGetFingerFlags
  | kFingerPowerControl | kGetFingerData.

Definition Command_value (c : Command) : Z :=
  match c with
  | kLoop => 0x06
  | kDisconnectAnnounce => 0x07
  | kHome => 0x20
  | kPrePosition => 0x21
  | kStop => 0x22
  | kFastStop => 0x23
  | kAcknowledgeStopOrFault => 0x24
  | kGrasp => 0x25
  | kRelease => 0x26
  | kSetAccel => 0x30
  | kGetAccel => 0x31
  | kSetForceLimit => 0x32
  | kGetForceLimit => 0x33
  | kSetSoftLimits => 0x34
  | kGetSoftLimits => 0x35
  | kClearSoftLimits => 0x36
  | kTareForceSensor => 0x38
  | kGetSystemState => 0x40
  | kGetGraspState => 0x41
  | kGetGraspStats => 0x42
  | kGetOpeningWidth => 0x43
  | kGetSpeed => 0x44
  | kGetForce => 0x45
  | kGetTemperature => 0x46
  | kGetSystemInfo => 0x50
  | kSetDeviceTag => 0x51
  | kGetDeviceTag => 0x52
  | kGetSystemLimits => 0x53
  | kGetFingerInfo => 0x60
  | kGetFingerFlags => 0x61
  | kFingerPowerControl => 0x62
  | kGetFingerData => 0x63
  end.

(** ** Reference definitions taken from the specification *)

(** The checksum in the specification's words: start from [0xFFFF] and
    for each byte set [acc = TABLE[(acc XOR byte) & 0xFF] XOR (acc >> 8)];
    nothing is applied to the final accumulator. *)
Definition crc16_fold (bytes : list Z) : Z :=
  fold_left
    (fun acc byte => Z.lxor (CRC_TABLE_at (Z.land (Z.lxor acc byte) 0xFF)) (Z.shiftr acc 8))
    bytes 0xFFFF.

(** Mirror image of the low [w] bits of [x]. *)
Definition reflect_bits (w : nat) (x : Z) : Z :=
  fold_left
    (fun r k => if Z.testbit x (Z.of_nat k) then Z.lor r (Z.shiftl 1 (Z.of_nat (w - 1 - k))) else r)
    (seq 0 w) 0.

(** The CRC-CCITT generator polynomial. *)
Definition CCITT_POLY : Z := 0x1021.

(** Table generation, most significant bit first: the index enters at the
    top byte of a 16-bit register, which is shifted left eight times, the
    polynomial being added whenever a one leaves the register. *)
Definition shift_msb_first (poly c : Z) : Z :=
  if Z.testbit c 15 then to_uint16 (Z.lxor (Z.shiftl c 1) poly)
  else to_uint16 (Z.shiftl c 1).

Definition table_entry_msb_first (i : Z) : Z :=
  Nat.iter 8 (shift_msb_first CCITT_POLY) (Z.shiftl i 8).

(** Table generation, bit-reflected: the index enters at the low byte,
    the register is shifted right eight times, and the mirrored polynomial
    is added whenever a one leaves the register. *)
Definition shift_reflected (rpoly c : Z) : Z :=
  if Z.testbit c 0 then Z.lxor (Z.shiftr c 1) rpoly else Z.shiftr c 1.

Definition table_entry_reflected (i : Z) : Z :=
  Nat.iter 8 (shift_reflected (reflect_bits 16 CCITT_POLY)) i.

(** ** The frame layout [Serialize] produces *)

(** Offsets 0 to 5, as the six stores write them. *)
Definition header_bytes (m : WsgCommandMessage) : list Z :=
  [ to_uchar 0xaa; to_uchar 0xaa; to_uchar 0xaa;
    to_uchar (Z.land (command_ m) 0xff);
    to_uchar (Z.land (payload_size m) 0xFF);
    to_uchar (Z.land (to_size_t (Z.shiftl (payload_size m) 8)) 0xFF) ].

(** The two bytes stored after the payload. *)
Definition checksum_bytes (crc : Z) : list Z :=
  [ to_uchar (Z.land crc 0xFF); to_uchar (Z.land (Z.shiftr crc 8) 0xFF) ].

(** The whole frame around a checksum value [crc]. *)
Definition frame_bytes (m : WsgCommandMessage) (crc : Z) : list Z :=
  header_bytes m ++ payload_ m ++ checksum_bytes crc.

(** Arguments the specification calls valid: an 8-bit command code and a
    payload of bytes whose count fits the 16-bit length field. *)
Definition valid_arguments (command : Z) (payload : list Z) : Prop :=
  0 <= command <= 255 /\ Z.of_nat (length payload) <= 65535 /\
  Forall is_uchar payload.

(** A payload that leaves room for the eight framing bytes in a vector:
    [buffer.resize] then does not throw. *)
Definition fits_vector (m : WsgCommandMessage) : Prop :=
  payload_size m + 8 <= vector_max_size.

(** ** Executions on the specification's examples *)

Example Serialize_grasp :
  Serialize {| this := {| command_ := 0x25; payload_ := [] |}; buffer := [1; 2; 3] |}
  = Returns {| this := {| command_ := 0x25; payload_ := [] |};
               buffer := [0xAA; 0xAA; 0xAA; 0x25; 0x00; 0x00; 0x71; 0x40] |}.
Proof. vm_compute. reflexivity. Qed.

Example Serialize_pre_position :
  Serialize {| this := {| command_ := 0x21; payload_ := [1; 2; 3; 4; 5; 6; 7; 8] |};
               buffer := [] |}
  = Returns {| this := {| command_ := 0x21; payload_ := [1; 2; 3; 4; 5; 6; 7; 8] |};
               buffer := [0xAA; 0xAA; 0xAA; 0x21; 0x08; 0x00;
                          1; 2; 3; 4; 5; 6; 7; 8; 0x5C; 0x5A] |}.
Proof. vm_compute. reflexivity. Qed.

Example new_negative_size :
  WsgCommandMessage_new 0x25 [1; 2; 3] (-2) = Throws length_error.
Proof. vm_compute. reflexivity. Qed.

Example new_reads_past_the_end :
  WsgCommandMessage_new 0x25 [1; 2; 3] 4 = Undefined.
Proof. vm_compute. reflexivity. Qed.

Example reflected_polynomial : reflect_bits 16 CCITT_POLY = 0x8408.
Proof. vm_compute. reflexivity. Qed.

(** ** Fixed-width arithmetic *)

Section Arithmetic.

Lemma land_0xFF_mod (x : Z) : Z.land x 0xFF = x mod 256.
Proof. change 0xFF with (Z.ones 8). rewrite Z.land_ones by lia. reflexivity. Qed.

Lemma land_0xFF_uchar (x : Z) : is_uchar (Z.land x 0xFF).
Proof.
  rewrite land_0xFF_mod. unfold is_uchar. change (2 ^ 8) with 256.
  apply Z.mod_pos_bound. lia.
Qed.

Lemma to_uchar_id (x : Z) : is_uchar x -> to_uchar x = x.
Proof. unfold is_uchar, to_uchar. intros H. apply Z.mod_small. exact H. Qed.

Lemma to_uchar_uchar (x : Z) : is_uchar (to_uchar x).
Proof. unfold is_uchar, to_uchar. apply Z.mod_pos_bound. lia. Qed.

Lemma to_uchar_land (x : Z) : to_uchar (Z.land x 0xFF) = Z.land x 0xFF.
Proof. apply to_uchar_id, land_0xFF_uchar. Qed.

Lemma to_uint16_id (x : Z) : is_uint16 x -> to_uint16 x = x.
Proof. unfold is_uint16, to_uint16. intros H. apply Z.mod_small. exact H. Qed.

Lemma to_size_t_id (x : Z) : 0 <= x < 2 ^ 64 -> to_size_t x = x.
Proof. unfold to_size_t. intros H. apply Z.mod_small. exact H. Qed.

Lemma to_int_id (x : Z) : is_int x -> to_int x = x.
Proof.
  unfold is_int, to_int. intros H.
  rewrite Z.mod_small; lia.
Qed.

(** A non-negative value never grows when converted to [int]. *)
Lemma to_int_le (x : Z) : 0 <= x -> to_int x <= x.
Proof.
  unfold to_int. intros H.
  assert (Hm : (x + 2 ^ 31) mod 2 ^ 32 <= x + 2 ^ 31) by (apply Z.mod_le; lia).
  lia.
Qed.

(** The shifted-left size has an empty low byte, whatever the size. *)
Lemma shiftl_8_low_byte (n : Z) : Z.land (to_size_t (Z.shiftl n 8)) 0xFF = 0.
Proof.
  rewrite land_0xFF_mod. unfold to_size_t.
  rewrite Z.mod_mod_divide by (exists (2 ^ 56); reflexivity).
  rewrite Z.shiftl_mul_pow2 by lia. change (2 ^ 8) with 256.
  apply Z.mod_mul. lia.
Qed.

Lemma uint16_testbit_high (x k : Z) : is_uint16 x -> 16 <= k -> Z.testbit x k = false.
Proof.
  intros Hx Hk. rewrite <- (to_uint16_id x Hx). unfold to_uint16.
  apply Z.mod_pow2_bits_high. lia.
Qed.

Lemma lxor_uint16 (x y : Z) : is_uint16 x -> is_uint16 y -> is_uint16 (Z.lxor x y).
Proof.
  intros Hx Hy.
  assert (Hmod : Z.lxor x y mod 2 ^ 16 = Z.lxor x y).
  { apply Z.bits_inj'. intros k Hk.
    destruct (Z_lt_le_dec k 16) as [Hlt | Hge].
    - apply Z.mod_pow2_bits_low. lia.
    - rewrite Z.mod_pow2_bits_high by lia.
      rewrite Z.lxor_spec, !uint16_testbit_high by assumption. reflexivity. }
  unfold is_uint16. rewrite <- Hmod. apply Z.mod_pos_bound. lia.
Qed.

Lemma shiftr_8_uint16 (x : Z) : is_uint16 x -> is_uint16 (Z.shiftr x 8).
Proof.
  unfold is_uint16. intros Hx. rewrite Z.shiftr_div_pow2 by lia.
  change (2 ^ 8) with 256. change (2 ^ 16) with 65536 in *.
  split.
  - apply Z.div_pos; lia.
  - apply Z.div_lt_upper_bound; lia.
Qed.

(** On an [int], [& 0xff] keeps the low byte of the two's complement
    pattern, and [Z.land] on the represented value agrees with it. *)
Lemma land_0xff_pattern (x : Z) : Z.land (x mod 2 ^ 32) 0xff = Z.land x 0xff.
Proof.
  rewrite !land_0xFF_mod.
  apply Z.mod_mod_divide. exists (2 ^ 24). reflexivity.
Qed.

End Arithmetic.

(** ** The lookup table *)

Section Table.

Lemma CRC_TABLE_length : length CRC_TABLE = 256%nat.
Proof. reflexivity. Qed.

Lemma CRC_TABLE_uint16 : Forall is_uint16 CRC_TABLE.
Proof.
  assert (H : forallb (fun x => (0 <=? x) && (x <? 2 ^ 16)) CRC_TABLE = true)
    by (vm_compute; reflexivity).
  rewrite forallb_forall in H. apply List.Forall_forall. intros x Hx.
  specialize (H x Hx). unfold is_uint16. lia.
Qed.

(** Whatever the index, a table read is a [uint16_t]. *)
Lemma CRC_TABLE_at_uint16 (i : Z) : is_uint16 (CRC_TABLE_at i).
Proof.
  unfold CRC_TABLE_at.
  destruct (nth_in_or_default (Z.to_nat i) CRC_TABLE 0) as [Hin | ->].
  - pose proof CRC_TABLE_uint16 as H.
    rewrite List.Forall_forall in H. apply H, Hin.
  - unfold is_uint16. lia.
Qed.

(** The masked index the loop uses always falls inside the table. *)
Lemma masked_index_in_table (crc b : Z) :
  (Z.to_nat (Z.land (Z.lxor crc b) 0x00FF) < length CRC_TABLE)%nat.
Proof.
  pose proof (land_0xFF_uchar (Z.lxor crc b)) as H. unfold is_uchar in H.
  rewrite CRC_TABLE_length. change (2 ^ 8) with 256 in H. lia.
Qed.

Lemma table_generation_checked :
  forallb
    (fun k => CRC_TABLE_at (Z.of_nat k) =? table_entry_msb_first (Z.of_nat k))
    (seq 0 256) = true.
Proof. vm_compute. reflexivity. Qed.

(** The reflected rule is the mirror image of the MSB-first rule: it
    yields the mirrored entry at the mirrored index. *)
Lemma reflected_is_mirrored_msb_first (i : Z) :
  0 <= i < 256 ->
  table_entry_reflected i = reflect_bits 16 (table_entry_msb_first (reflect_bits 8 i)).
Proof.
  intros Hi.
  assert (H : forallb
    (fun k => table_entry_reflected (Z.of_nat k)
              =? reflect_bits 16 (table_entry_msb_first (reflect_bits 8 (Z.of_nat k))))
    (seq 0 256) = true) by (vm_compute; reflexivity).
  rewrite forallb_forall in H.
  specialize (H (Z.to_nat i)). rewrite Z2Nat.id in H by lia.
  apply Z.eqb_eq, H, in_seq. lia.
Qed.

End Table.

(** C4 (as amended). Every one of the 256 entries of [CRC_TABLE] is the
    value the MSB-first (not bit-reflected) table generation for the
    polynomial 0x1021 prescribes for its index: the index placed in the
    top byte of a 16-bit register, shifted left eight times, 0x1021
    added whenever a one is shifted out. *)
Theorem CRC_TABLE_msb_first (i : Z) :
  0 <= i < 256 -> CRC_TABLE_at i = table_entry_msb_first i.
Proof.
  intros Hi. pose proof table_generation_checked as H.
  rewrite forallb_forall in H.
  specialize (H (Z.to_nat i)). rewrite Z2Nat.id in H by lia.
  apply Z.eqb_eq, H, in_seq. lia.
Qed.

Lemma CRC_TABLE_msb_first_witness :
  0 <= 0xA5 < 256 /\ CRC_TABLE_at 0xA5 = table_entry_msb_first 0xA5.
Proof. split; [lia | apply (CRC_TABLE_msb_first 0xA5); lia]. Defined.

(** C4 (as stated) fails at index 1: the table holds 0x1021 there, the
    bit-reflected generation prescribes 0x1189. *)
Lemma CRC_TABLE_not_reflected :
  CRC_TABLE_at 1 = 0x1021 /\ table_entry_reflected 1 = 0x1189 /\
  CRC_TABLE_at 1 <> table_entry_reflected 1.
Proof. vm_compute. repeat split; discriminate. Qed.

(** ** The checksum loop *)

Section Checksum.

Lemma crc16_step_uint16 (crc b : Z) : is_uint16 (crc16_step crc b).
Proof. unfold crc16_step, to_uint16, is_uint16. apply Z.mod_pos_bound. lia. Qed.

(** The conversion back to [uint16_t] in the loop body never wraps. *)
Lemma crc16_step_no_wrap (crc b : Z) :
  is_uint16 crc ->
  crc16_step crc b
  = Z.lxor (CRC_TABLE_at (Z.land (Z.lxor crc b) 0xFF)) (Z.shiftr crc 8).
Proof.
  intros Hcrc. unfold crc16_step. apply to_uint16_id, lxor_uint16.
  - apply CRC_TABLE_at_uint16.
  - apply shiftr_8_uint16, Hcrc.
Qed.

Lemma crc16_loop_fold (bytes : list Z) : forall crc,
  is_uint16 crc ->
  crc16_loop (length bytes) bytes crc
  = Returns (fold_left
      (fun acc byte =>
         Z.lxor (CRC_TABLE_at (Z.land (Z.lxor acc byte) 0xFF)) (Z.shiftr acc 8))
      bytes crc).
Proof.
  induction bytes as [| b bytes IH]; intros crc Hcrc; simpl.
  - reflexivity.
  - rewrite IH by apply crc16_step_uint16.
    rewrite crc16_step_no_wrap by exact Hcrc. reflexivity.
Qed.

(** The loop reads the first [n] bytes only. *)
Lemma crc16_loop_app (n : nat) : forall data extra crc,
  (n <= length data)%nat ->
  crc16_loop n (data ++ extra) crc = crc16_loop n data crc.
Proof.
  induction n as [| n IH]; intros data extra crc Hn; simpl.
  - reflexivity.
  - destruct data as [| b data]; simpl in *; [lia |].
    apply IH. lia.
Qed.

Lemma crc16_loop_take (n : nat) (data : list Z) (crc : Z) :
  (n <= length data)%nat ->
  crc16_loop n (take n data) crc = crc16_loop n data crc.
Proof.
  intros Hn. rewrite <- (take_drop n data) at 2.
  symmetry. apply crc16_loop_app. rewrite length_take. lia.
Qed.

(** Within the array the loop terminates with a value. *)
Lemma crc16_loop_returns (n : nat) : forall data crc,
  (n <= length data)%nat -> exists c, crc16_loop n data crc = Returns c.
Proof.
  induction n as [| n IH]; intros data crc Hn; simpl.
  - eexists. reflexivity.
  - destruct data as [| b data]; simpl in *; [lia |].
    apply IH. lia.
Qed.

Lemma crc16_loop_result_uint16 (n : nat) : forall data crc c,
  is_uint16 crc -> crc16_loop n data crc = Returns c -> is_uint16 c.
Proof.
  induction n as [| n IH]; intros data crc c Hcrc; simpl.
  - intros [= <-]. exact Hcrc.
  - destruct data as [| b data]; [discriminate |].
    apply IH, crc16_step_uint16.
Qed.

Lemma checksum_result_uint16 (data : list Z) (size c : Z) :
  checksum_update_crc16 data size = Returns c -> is_uint16 c.
Proof.
  unfold checksum_update_crc16. apply crc16_loop_result_uint16.
  unfold is_uint16. lia.
Qed.

End Checksum.

(** C5. Applied to any byte sequence, [checksum_update_crc16] returns the
    fold that starts from 0xFFFF and sets
    [acc = TABLE[(acc XOR byte) & 0xFF] XOR (acc >> 8)] for each byte in
    order, with no final XOR; on the empty sequence it returns 0xFFFF. *)
Theorem checksum_update_crc16_is_fold :
  (forall bytes : list Z,
     checksum_update_crc16 bytes (Z.of_nat (length bytes)) = Returns (crc16_fold bytes))
  /\ checksum_update_crc16 [] 0 = Returns 0xFFFF.
Proof.
  split; [| reflexivity].
  intros bytes. unfold checksum_update_crc16, crc16_fold.
  rewrite Nat2Z.id. apply crc16_loop_fold. unfold is_uint16. lia.
Qed.

(** ** Running [Serialize] *)

Section Serialize_execution.

Lemma bind_Returns {A B : Type} (a : A) (k : A -> outcome B) :
  (Returns a ≫= k) = k a.
Proof. reflexivity. Qed.

Lemma buffer_resize_returns (m : WsgCommandMessage) (b : list Z) (n : Z) :
  n <= vector_max_size ->
  buffer_resize n {| this := m; buffer := b |}
  = Returns {| this := m; buffer := resize (Z.to_nat n) 0 b |}.
Proof.
  intros Hn. unfold buffer_resize, vector_resize. simpl.
  rewrite decide_False by lia. reflexivity.
Qed.

Lemma buffer_store_returns (m : WsgCommandMessage) (b : list Z) (i v : Z) (k : nat) :
  Z.to_nat i = k -> (k < length b)%nat ->
  buffer_store i v {| this := m; buffer := b |}
  = Returns {| this := m; buffer := <[k := to_uchar v]> b |}.
Proof.
  intros <- Hk. unfold buffer_store. simpl.
  rewrite decide_True by exact Hk. reflexivity.
Qed.

Lemma buffer_memcpy_returns (m : WsgCommandMessage) (pre mid post src : list Z) :
  length mid = length src ->
  buffer_memcpy (length pre) src (Z.of_nat (length src))
    {| this := m; buffer := pre ++ mid ++ post |}
  = Returns {| this := m; buffer := pre ++ src ++ post |}.
Proof.
  intros Hlen. unfold buffer_memcpy, memcpy. simpl. rewrite Nat2Z.id.
  rewrite decide_True by (rewrite !length_app; lia).
  rewrite take_app_length, firstn_all.
  rewrite drop_app_add, <- Hlen, drop_app_length. reflexivity.
Qed.

(** A vector of [n + 8] bytes splits into six header bytes, [n] payload
    bytes and two trailing bytes. *)
Lemma frame_shape (b : list Z) (n : nat) :
  length b = (n + 8)%nat ->
  exists hdr mid t0 t1,
    b = hdr ++ mid ++ [t0; t1] /\ length hdr = 6%nat /\ length mid = n.
Proof.
  intros Hlen.
  exists (take 6 b), (take n (drop 6 b)), (nth (n + 6) b 0), (nth (n + 7) b 0).
  assert (Htail : drop n (drop 6 b) = [nth (n + 6) b 0; nth (n + 7) b 0]).
  { rewrite drop_drop.
    rewrite <- (take_drop (6 + n) b) at 2 3.
    assert (Hl : length (take (6 + n) b) = (6 + n)%nat) by (rewrite length_take; lia).
    assert (Hd : length (drop (6 + n) b) = 2%nat) by (rewrite length_drop; lia).
    rewrite !app_nth2 by lia. rewrite Hl.
    replace (n + 6 - (6 + n))%nat with 0%nat by lia.
    replace (n + 7 - (6 + n))%nat with 1%nat by lia.
    destruct (drop (6 + n) b) as [| x [| y [| z l]]]; simpl in Hd; try lia.
    reflexivity. }
  split; [| split].
  - rewrite <- Htail, take_drop, take_drop. reflexivity.
  - rewrite length_take. lia.
  - rewrite length_take, length_drop. lia.
Qed.

Lemma header_bytes_length (m : WsgCommandMessage) : length (header_bytes m) = 6%nat.
Proof. reflexivity. Qed.

(** The run of [Serialize] on any message that fits a vector, from any
    state of the caller's vector: it returns, the object is as before,
    and the vector holds header, payload and checksum bytes, the
    checksum being the one of header and payload. *)
Lemma Serialize_returns (m : WsgCommandMessage) (buf : list Z) :
  fits_vector m ->
  exists crc,
    checksum_update_crc16 (header_bytes m ++ payload_ m) (to_int (payload_size m + 6))
    = Returns crc
    /\ Serialize {| this := m; buffer := buf |}
       = Returns {| this := m;
                    buffer := frame_bytes m crc |}.
Proof.
  unfold fits_vector, vector_max_size, frame_bytes. intros Hfit.
  remember (length (payload_ m)) as n eqn:Hn.
  assert (HN : payload_size m = Z.of_nat n) by (subst n; reflexivity).
  assert (Hn0 : 0 <= payload_size m) by lia.
  assert (Hcrc : exists crc,
    checksum_update_crc16 (header_bytes m ++ payload_ m) (to_int (payload_size m + 6))
    = Returns crc).
  { apply crc16_loop_returns. rewrite length_app, header_bytes_length.
    pose proof (to_int_le (payload_size m + 6)). lia. }
  destruct Hcrc as [crc Hcrc]. exists crc. split; [exact Hcrc |].
  unfold Serialize. cbn [this].
  rewrite to_size_t_id by lia.
  rewrite buffer_resize_returns by (unfold vector_max_size; lia).
  rewrite bind_Returns. cbn [this].
  destruct (frame_shape (resize (Z.to_nat (payload_size m + 8)) 0 buf) n)
    as (hdr & mid & t0 & t1 & -> & Hhdr & Hmid).
  { rewrite length_resize. lia. }
  destruct hdr as [| h0 [| h1 [| h2 [| h3 [| h4 [| h5 [| h6 hdr]]]]]]];
    simpl in Hhdr; try lia.
  do 6 (erewrite buffer_store_returns;
        [ rewrite bind_Returns; cbn [this] | reflexivity | simpl; lia ]).
  change (Z.to_nat 0) with 0%nat. change (Z.to_nat 1) with 1%nat.
  change (Z.to_nat 2) with 2%nat. change (Z.to_nat 3) with 3%nat.
  change (Z.to_nat 4) with 4%nat. change (Z.to_nat 5) with 5%nat.
  cbn [insert list_insert].
  match goal with
  | |- context [ {| this := m; buffer := ?l |} ] =>
      change l with (header_bytes m ++ mid ++ [t0; t1])
  end.
  change 6%nat with (length (header_bytes m)) at 1.
  unfold payload_size at 1.
  rewrite buffer_memcpy_returns by congruence.
  rewrite bind_Returns. cbn [this buffer].
  rewrite to_size_t_id by lia.
  assert (Hread : checksum_update_crc16 (header_bytes m ++ payload_ m ++ [t0; t1])
                    (to_int (payload_size m + 6)) = Returns crc).
  { rewrite <- Hcrc, app_assoc. apply crc16_loop_app.
    rewrite length_app, header_bytes_length.
    pose proof (to_int_le (payload_size m + 6)). lia. }
  rewrite Hread, bind_Returns.
  assert (Hbody : length (header_bytes m ++ payload_ m) = (n + 6)%nat)
    by (rewrite length_app, header_bytes_length; lia).
  rewrite app_assoc.
  erewrite (buffer_store_returns _ _ _ _ (length (header_bytes m ++ payload_ m) + 0));
    [ | rewrite Hbody; rewrite ?to_size_t_id by lia; lia | rewrite !length_app; simpl; lia ].
  rewrite bind_Returns. cbn [this].
  erewrite (buffer_store_returns _ _ _ _ (length (header_bytes m ++ payload_ m) + 1));
    [ | rewrite Hbody; fold (payload_size m); rewrite ?to_size_t_id by lia; lia
      | rewrite length_insert, !length_app; simpl; lia ].
  rewrite !insert_app_r. cbn [insert list_insert].
  rewrite <- app_assoc. reflexivity.
Qed.

End Serialize_execution.

(** ** The constructor *)

Section Construction.

(** With a size that is a non-negative [int] within the caller's array,
    the constructor returns an object holding the command as given and
    the first [size] bytes of the array. *)
Lemma WsgCommandMessage_new_returns (command : Z) (payload : list Z) (size : Z) :
  is_int size -> 0 <= size <= Z.of_nat (length payload) ->
  WsgCommandMessage_new command payload size
  = Returns {| command_ := command; payload_ := take (Z.to_nat size) payload |}.
Proof.
  unfold is_int. intros Hint Hsize.
  unfold WsgCommandMessage_new, vector_resize, vector_max_size.
  rewrite to_size_t_id by lia.
  rewrite decide_False by lia. rewrite bind_Returns.
  unfold memcpy. rewrite resize_nil, length_replicate.
  rewrite decide_True by lia. rewrite bind_Returns.
  rewrite take_0, drop_ge by (rewrite length_replicate; lia).
  rewrite app_nil_r. reflexivity.
Qed.

Lemma WsgCommandMessage_new_whole (command : Z) (payload : list Z) :
  is_int (Z.of_nat (length payload)) ->
  WsgCommandMessage_new command payload (Z.of_nat (length payload))
  = Returns {| command_ := command; payload_ := payload |}.
Proof.
  intros Hint. rewrite WsgCommandMessage_new_returns by (auto; lia).
  rewrite Nat2Z.id, firstn_all. reflexivity.
Qed.

(** No path through the constructor raises [InvalidArgument]. *)
Lemma WsgCommandMessage_new_no_InvalidArgument (command : Z) (payload : list Z) (size : Z) :
  WsgCommandMessage_new command payload size <> Throws InvalidArgument.
Proof.
  unfold WsgCommandMessage_new, vector_resize, memcpy.
  destruct (decide (vector_max_size < to_size_t size)); [discriminate |].
  rewrite bind_Returns.
  match goal with |- context [decide ?P] => destruct (decide P) end; discriminate.
Qed.

Lemma valid_arguments_int (command : Z) (payload : list Z) :
  valid_arguments command payload -> is_int (Z.of_nat (length payload)).
Proof. unfold valid_arguments, is_int. lia. Qed.

Lemma int_size_fits_vector (command : Z) (payload : list Z) :
  is_int (Z.of_nat (length payload)) ->
  fits_vector {| command_ := command; payload_ := payload |}.
Proof. unfold is_int, fits_vector, payload_size, vector_max_size. simpl. lia. Qed.

End Construction.

(** ** The emitted frame *)

Section Frame.

Variable m : WsgCommandMessage.
Variable crc : Z.

Lemma frame_length : length (frame_bytes m crc) = (length (payload_ m) + 8)%nat.
Proof. unfold frame_bytes. rewrite !length_app. simpl. lia. Qed.

Lemma frame_take_body :
  take (length (payload_ m) + 6) (frame_bytes m crc) = header_bytes m ++ payload_ m.
Proof.
  unfold frame_bytes. rewrite app_assoc. apply take_app_length'.
  rewrite length_app, header_bytes_length. lia.
Qed.

Lemma frame_payload : take (length (payload_ m)) (drop 6 (frame_bytes m crc)) = payload_ m.
Proof. unfold frame_bytes. simpl. apply take_app_length. Qed.

Lemma frame_lookup_payload (i : nat) :
  (i < length (payload_ m))%nat -> (frame_bytes m crc) !! (6 + i)%nat = payload_ m !! i.
Proof. intros Hi. unfold frame_bytes. simpl. apply lookup_app_l, Hi. Qed.

Lemma frame_lookup_checksum_low :
  (frame_bytes m crc) !! (length (payload_ m) + 6)%nat = Some (Z.land crc 0xFF).
Proof.
  unfold frame_bytes. rewrite app_assoc, lookup_app_r
    by (rewrite length_app, header_bytes_length; lia).
  rewrite length_app, header_bytes_length.
  replace (length (payload_ m) + 6 - (6 + length (payload_ m)))%nat with 0%nat by lia.
  simpl. rewrite to_uchar_land. reflexivity.
Qed.

Lemma frame_lookup_checksum_high :
  (frame_bytes m crc) !! (length (payload_ m) + 7)%nat = Some (Z.land (Z.shiftr crc 8) 0xFF).
Proof.
  unfold frame_bytes. rewrite app_assoc, lookup_app_r
    by (rewrite length_app, header_bytes_length; lia).
  rewrite length_app, header_bytes_length.
  replace (length (payload_ m) + 7 - (6 + length (payload_ m)))%nat with 1%nat by lia.
  simpl. rewrite to_uchar_land. reflexivity.
Qed.

Lemma frame_lookup_preamble :
  (frame_bytes m crc) !! 0%nat = Some 0xAA /\ (frame_bytes m crc) !! 1%nat = Some 0xAA /\ (frame_bytes m crc) !! 2%nat = Some 0xAA.
Proof. repeat split. Qed.

Lemma frame_lookup_command : (frame_bytes m crc) !! 3%nat = Some (Z.land (command_ m) 0xFF).
Proof. unfold frame_bytes. simpl. rewrite to_uchar_land. reflexivity. Qed.

Lemma frame_lookup_length_low : (frame_bytes m crc) !! 4%nat = Some (Z.land (payload_size m) 0xFF).
Proof. unfold frame_bytes. simpl. rewrite to_uchar_land. reflexivity. Qed.

(** The store at offset 5 writes zero for every payload. *)
Lemma frame_lookup_length_high : (frame_bytes m crc) !! 5%nat = Some 0.
Proof. unfold frame_bytes. simpl. rewrite shiftl_8_low_byte. reflexivity. Qed.

End Frame.

Section Encoding.

(** Construction followed by [Serialize], for a payload whose size is
    passed as an [int]. The size handed to the checksum is converted to
    [int] once more, after six has been added. *)
Lemma encode_returns (command : Z) (payload buf : list Z) :
  is_int (Z.of_nat (length payload)) ->
  let m := {| command_ := command; payload_ := payload |} in
  exists crc,
    WsgCommandMessage_new command payload (Z.of_nat (length payload)) = Returns m
    /\ checksum_update_crc16 (header_bytes m ++ payload)
         (to_int (Z.of_nat (length payload) + 6)) = Returns crc
    /\ Serialize {| this := m; buffer := buf |}
       = Returns {| this := m; buffer := frame_bytes m crc |}.
Proof.
  intros Hint m.
  destruct (Serialize_returns m buf (int_size_fits_vector command payload Hint))
    as (crc & Hcrc & Hser).
  exists crc. split; [apply WsgCommandMessage_new_whole, Hint |].
  split; [exact Hcrc | exact Hser].
Qed.

(** For a valid payload that second conversion changes nothing. *)
Lemma valid_checksum_size (command : Z) (payload : list Z) :
  valid_arguments command payload ->
  to_int (Z.of_nat (length payload) + 6) = Z.of_nat (length payload) + 6.
Proof.
  unfold valid_arguments. intros (_ & Hlen & _).
  apply to_int_id. unfold is_int. lia.
Qed.

End Encoding.

(** C1 (failing input). For a payload of 256 bytes [Serialize] stores 0
    at offset 4 and 0 at offset 5, while [(256 >> 8) & 0xFF] is 1: read
    low byte first the length field says 0, not 256. *)
Theorem length_high_byte_lost_at_256 :
  exists out,
    Serialize {| this := {| command_ := 0x25; payload_ := replicate 256 0 |}; buffer := [] |}
    = Returns {| this := {| command_ := 0x25; payload_ := replicate 256 0 |}; buffer := out |}
    /\ out !! 4%nat = Some 0
    /\ out !! 5%nat = Some 0
    /\ Z.land 256 0xFF = 0
    /\ Z.land (Z.shiftr 256 8) 0xFF = 1.
Proof.
  eexists. split; [vm_compute; reflexivity |].
  repeat split.
Qed.

(** X9. The length field as the code writes it: offset 4 holds the low
    byte of the payload size and offset 5 holds zero, so the field reads
    [N mod 256] for every payload. *)
Lemma Serialize_length_field (m : WsgCommandMessage) (buf : list Z) :
  fits_vector m ->
  exists out,
    Serialize {| this := m; buffer := buf |} = Returns {| this := m; buffer := out |}
    /\ out !! 4%nat = Some (payload_size m mod 256)
    /\ out !! 5%nat = Some 0.
Proof.
  intros Hfit. destruct (Serialize_returns m buf Hfit) as (crc & _ & Hser).
  eexists. split; [exact Hser |]. split.
  - rewrite frame_lookup_length_low, land_0xFF_mod. reflexivity.
  - apply frame_lookup_length_high.
Qed.

(** X11. Every byte [Serialize] leaves in the vector is an
    [unsigned char] when the payload bytes are. *)
Lemma Serialize_output_uchar (m : WsgCommandMessage) (buf : list Z) :
  fits_vector m -> Forall is_uchar (payload_ m) ->
  exists out,
    Serialize {| this := m; buffer := buf |} = Returns {| this := m; buffer := out |}
    /\ Forall is_uchar out.
Proof.
  intros Hfit Hbytes. destruct (Serialize_returns m buf Hfit) as (crc & _ & Hser).
  eexists. split; [exact Hser |].
  unfold frame_bytes. rewrite !Forall_app. split; [| split].
  - unfold header_bytes. repeat (apply List.Forall_cons; [apply to_uchar_uchar |]).
    apply List.Forall_nil.
  - exact Hbytes.
  - unfold checksum_bytes. repeat (apply List.Forall_cons; [apply to_uchar_uchar |]).
    apply List.Forall_nil.
Qed.

(** X10. Up to 255 payload bytes the length field, read low byte first,
    is the payload size. *)
Lemma Serialize_length_field_short (m : WsgCommandMessage) (buf : list Z) :
  payload_size m <= 255 ->
  exists out lo hi,
    Serialize {| this := m; buffer := buf |} = Returns {| this := m; buffer := out |}
    /\ out !! 4%nat = Some lo /\ out !! 5%nat = Some hi
    /\ lo + 256 * hi = payload_size m.
Proof.
  intros Hlen.
  assert (Hfit : fits_vector m) by (unfold fits_vector, vector_max_size; lia).
  destruct (Serialize_returns m buf Hfit) as (crc & _ & Hser).
  exists (frame_bytes m crc), (payload_size m mod 256), 0.
  split; [exact Hser |]. split; [| split].
  - rewrite frame_lookup_length_low, land_0xFF_mod. reflexivity.
  - apply frame_lookup_length_high.
  - rewrite Z.mod_small; unfold payload_size in *; lia.
Qed.

(** C2 (as stated) fails: a negative command, a command above 255 and a
    payload of 65536 bytes each construct an object. *)
Lemma invalid_arguments_construct :
  WsgCommandMessage_new (-1) [] 0 = Returns {| command_ := -1; payload_ := [] |}
  /\ WsgCommandMessage_new 256 [] 0 = Returns {| command_ := 256; payload_ := [] |}
  /\ WsgCommandMessage_new 0x25 (replicate (Z.to_nat 65536) 0) 65536
     = Returns {| command_ := 0x25; payload_ := replicate (Z.to_nat 65536) 0 |}
  /\ WsgCommandMessage_new (-1) [] 0 <> Throws InvalidArgument.
Proof.
  split; [reflexivity |]. split; [reflexivity |]. split; [| discriminate].
  rewrite WsgCommandMessage_new_returns
    by (unfold is_int; rewrite ?length_replicate; lia).
  rewrite take_ge by (rewrite length_replicate; lia).
  reflexivity.
Qed.

(** C2 (as amended). The constructor never fails with [InvalidArgument]:
    for every command code, in or out of the 8-bit range, and every
    payload whose byte count is passed as an [int], 65536 bytes and more
    included, it returns an object holding the command as given and a copy
    of the payload. *)
Theorem WsgCommandMessage_new_accepts (command : Z) (payload : list Z) :
  is_int (Z.of_nat (length payload)) ->
  WsgCommandMessage_new command payload (Z.of_nat (length payload))
  = Returns {| command_ := command; payload_ := payload |}
  /\ forall size, WsgCommandMessage_new command payload size <> Throws InvalidArgument.
Proof.
  intros Hint. split.
  - apply WsgCommandMessage_new_whole, Hint.
  - intros size. apply WsgCommandMessage_new_no_InvalidArgument.
Qed.

Lemma WsgCommandMessage_new_accepts_witness :
  is_int (Z.of_nat (length [7; 8; 9]))
  /\ WsgCommandMessage_new (-300) [7; 8; 9] (Z.of_nat (length [7; 8; 9]))
     = Returns {| command_ := -300; payload_ := [7; 8; 9] |}
  /\ forall size, WsgCommandMessage_new (-300) [7; 8; 9] size <> Throws InvalidArgument.
Proof.
  assert (H : is_int (Z.of_nat (length [7; 8; 9]))) by (unfold is_int; simpl; lia).
  split; [exact H | apply (WsgCommandMessage_new_accepts (-300) [7; 8; 9] H)].
Defined.

(** C3. For every valid command and payload of [N] bytes, [Serialize]
    produces exactly [N + 8] bytes, and the bytes at offsets [N + 6] and
    [N + 7] are, low byte first, the checksum that
    [checksum_update_crc16] computes over the first [N + 6] bytes of that
    buffer; the two checksum bytes lie outside the range it covers. *)
Theorem Serialize_checksum_trailer (command : Z) (payload buf : list Z) :
  valid_arguments command payload ->
  exists m out crc,
    WsgCommandMessage_new command payload (Z.of_nat (length payload)) = Returns m
    /\ Serialize {| this := m; buffer := buf |} = Returns {| this := m; buffer := out |}
    /\ length out = (length payload + 8)%nat
    /\ checksum_update_crc16 (take (length payload + 6) out)
         (Z.of_nat (length payload) + 6) = Returns crc
    /\ crc = crc16_fold (take (length payload + 6) out)
    /\ out !! (length payload + 6)%nat = Some (Z.land crc 0xFF)
    /\ out !! (length payload + 7)%nat = Some (Z.land (Z.shiftr crc 8) 0xFF).
Proof.
  intros Hvalid.
  destruct (encode_returns command payload buf (valid_arguments_int _ _ Hvalid))
    as (crc & Hnew & Hcrc & Hser).
  rewrite (valid_checksum_size _ _ Hvalid) in Hcrc.
  set (m := {| command_ := command; payload_ := payload |}) in *.
  exists m, (frame_bytes m crc), crc.
  pose proof (frame_take_body m crc) as Hbody. cbn [payload_ m] in Hbody.
  split; [exact Hnew |]. split; [exact Hser |].
  split; [apply (frame_length m crc) |].
  rewrite Hbody.
  split; [exact Hcrc |]. split.
  - assert (Hfold : checksum_update_crc16 (header_bytes m ++ payload)
                      (Z.of_nat (length (header_bytes m ++ payload)))
                    = Returns (crc16_fold (header_bytes m ++ payload))).
    { unfold checksum_update_crc16, crc16_fold. rewrite Nat2Z.id.
      apply crc16_loop_fold. unfold is_uint16. lia. }
    rewrite length_app, header_bytes_length in Hfold.
    replace (Z.of_nat (6 + length payload)) with (Z.of_nat (length payload) + 6)
      in Hfold by lia.
    congruence.
  - split.
    + apply (frame_lookup_checksum_low m crc).
    + apply (frame_lookup_checksum_high m crc).
Qed.

Lemma Serialize_checksum_trailer_witness :
  valid_arguments 0x21 [1; 2; 3; 4; 5; 6; 7; 8]
  /\ exists m out crc,
    WsgCommandMessage_new 0x21 [1; 2; 3; 4; 5; 6; 7; 8]
      (Z.of_nat (length [1; 2; 3; 4; 5; 6; 7; 8])) = Returns m
    /\ Serialize {| this := m; buffer := [9; 9] |} = Returns {| this := m; buffer := out |}
    /\ length out = (length [1; 2; 3; 4; 5; 6; 7; 8] + 8)%nat
    /\ checksum_update_crc16 (take (length [1; 2; 3; 4; 5; 6; 7; 8] + 6) out)
         (Z.of_nat (length [1; 2; 3; 4; 5; 6; 7; 8]) + 6) = Returns crc
    /\ crc = crc16_fold (take (length [1; 2; 3; 4; 5; 6; 7; 8] + 6) out)
    /\ out !! (length [1; 2; 3; 4; 5; 6; 7; 8] + 6)%nat = Some (Z.land crc 0xFF)
    /\ out !! (length [1; 2; 3; 4; 5; 6; 7; 8] + 7)%nat
       = Some (Z.land (Z.shiftr crc 8) 0xFF).
Proof.
  assert (H : valid_arguments 0x21 [1; 2; 3; 4; 5; 6; 7; 8]).
  { unfold valid_arguments. split; [lia |]. split; [simpl; lia |].
    repeat (apply List.Forall_cons; [unfold is_uchar; lia |]). apply List.Forall_nil. }
  split; [exact H | apply (Serialize_checksum_trailer 0x21 [1; 2; 3; 4; 5; 6; 7; 8] [9; 9] H)].
Defined.

(** C6. For every valid command and payload, the first three bytes of the
    serialized buffer are 0xAA 0xAA 0xAA and byte 3 is [command & 0xFF]. *)
Theorem Serialize_preamble_command (command : Z) (payload buf : list Z) :
  valid_arguments command payload ->
  exists m out,
    WsgCommandMessage_new command payload (Z.of_nat (length payload)) = Returns m
    /\ Serialize {| this := m; buffer := buf |} = Returns {| this := m; buffer := out |}
    /\ out !! 0%nat = Some 0xAA /\ out !! 1%nat = Some 0xAA /\ out !! 2%nat = Some 0xAA
    /\ out !! 3%nat = Some (Z.land command 0xFF).
Proof.
  intros Hvalid.
  destruct (encode_returns command payload buf (valid_arguments_int _ _ Hvalid))
    as (crc & Hnew & _ & Hser).
  set (m := {| command_ := command; payload_ := payload |}) in *.
  exists m, (frame_bytes m crc).
  split; [exact Hnew |]. split; [exact Hser |].
  destruct (frame_lookup_preamble m crc) as (H0 & H1 & H2).
  repeat split; try assumption.
  apply (frame_lookup_command m crc).
Qed.

Lemma Serialize_preamble_command_witness :
  valid_arguments 0x25 []
  /\ exists m out,
    WsgCommandMessage_new 0x25 [] (Z.of_nat (length (@nil Z))) = Returns m
    /\ Serialize {| this := m; buffer := [] |} = Returns {| this := m; buffer := out |}
    /\ out !! 0%nat = Some 0xAA /\ out !! 1%nat = Some 0xAA /\ out !! 2%nat = Some 0xAA
    /\ out !! 3%nat = Some (Z.land 0x25 0xFF).
Proof.
  assert (H : valid_arguments 0x25 []).
  { unfold valid_arguments. split; [lia |]. split; [simpl; lia | apply List.Forall_nil]. }
  split; [exact H | apply (Serialize_preamble_command 0x25 [] [] H)].
Defined.

(** C7. For every valid payload of [N] bytes, the object holds the bytes
    supplied at construction and bytes 6 to 6+N-1 of the serialized buffer
    are those bytes, unchanged and in their order. *)
Theorem Serialize_payload_verbatim (command : Z) (payload buf : list Z) :
  valid_arguments command payload ->
  exists m out,
    WsgCommandMessage_new command payload (Z.of_nat (length payload)) = Returns m
    /\ payload_ m = payload
    /\ Serialize {| this := m; buffer := buf |} = Returns {| this := m; buffer := out |}
    /\ take (length payload) (drop 6 out) = payload
    /\ forall i : nat, (i < length payload)%nat -> out !! (6 + i)%nat = payload !! i.
Proof.
  intros Hvalid.
  destruct (encode_returns command payload buf (valid_arguments_int _ _ Hvalid))
    as (crc & Hnew & _ & Hser).
  set (m := {| command_ := command; payload_ := payload |}) in *.
  exists m, (frame_bytes m crc).
  split; [exact Hnew |]. split; [reflexivity |]. split; [exact Hser |].
  split.
  - apply (frame_payload m crc).
  - intros i Hi. apply (frame_lookup_payload m crc i Hi).
Qed.

Lemma Serialize_payload_verbatim_witness :
  valid_arguments 0x30 [0xDE; 0xAD; 0xBE; 0xEF]
  /\ exists m out,
    WsgCommandMessage_new 0x30 [0xDE; 0xAD; 0xBE; 0xEF]
      (Z.of_nat (length [0xDE; 0xAD; 0xBE; 0xEF])) = Returns m
    /\ payload_ m = [0xDE; 0xAD; 0xBE; 0xEF]
    /\ Serialize {| this := m; buffer := [] |} = Returns {| this := m; buffer := out |}
    /\ take (length [0xDE; 0xAD; 0xBE; 0xEF]) (drop 6 out) = [0xDE; 0xAD; 0xBE; 0xEF]
    /\ forall i : nat, (i < length [0xDE; 0xAD; 0xBE; 0xEF])%nat ->
         out !! (6 + i)%nat = [0xDE; 0xAD; 0xBE; 0xEF] !! i.
Proof.
  assert (H : valid_arguments 0x30 [0xDE; 0xAD; 0xBE; 0xEF]).
  { unfold valid_arguments. split; [lia |]. split; [simpl; lia |].
    repeat (apply List.Forall_cons; [unfold is_uchar; lia |]). apply List.Forall_nil. }
  split; [exact H | apply (Serialize_payload_verbatim 0x30 [0xDE; 0xAD; 0xBE; 0xEF] [] H)].
Defined.

(** C8. Serializing the same object twice, into the same vector or into
    another one, yields identical bytes, and each call leaves the
    object's command and payload as they were. *)
Theorem Serialize_idempotent (m : WsgCommandMessage) (buf buf' : list Z) :
  fits_vector m ->
  exists s1 s2,
    Serialize {| this := m; buffer := buf |} = Returns s1
    /\ Serialize {| this := this s1; buffer := buf' |} = Returns s2
    /\ buffer s2 = buffer s1
    /\ this s1 = m /\ this s2 = m
    /\ Serialize s1 = Returns s1.
Proof.
  intros Hfit.
  destruct (Serialize_returns m buf Hfit) as (crc & Hcrc & Hser).
  destruct (Serialize_returns m buf' Hfit) as (crc' & Hcrc' & Hser').
  destruct (Serialize_returns m (frame_bytes m crc) Hfit)
    as (crc'' & Hcrc'' & Hser'').
  assert (crc' = crc) by congruence. assert (crc'' = crc) by congruence. subst.
  eexists. eexists.
  split; [exact Hser |]. cbn [this buffer].
  split; [exact Hser' |].
  repeat split. exact Hser''.
Qed.

Lemma Serialize_idempotent_witness :
  fits_vector {| command_ := 0x21; payload_ := [1; 2; 3] |}
  /\ exists s1 s2,
    Serialize {| this := {| command_ := 0x21; payload_ := [1; 2; 3] |}; buffer := [] |}
    = Returns s1
    /\ Serialize {| this := this s1; buffer := [5; 5; 5; 5] |} = Returns s2
    /\ buffer s2 = buffer s1
    /\ this s1 = {| command_ := 0x21; payload_ := [1; 2; 3] |}
    /\ this s2 = {| command_ := 0x21; payload_ := [1; 2; 3] |}
    /\ Serialize s1 = Returns s1.
Proof.
  assert (H : fits_vector {| command_ := 0x21; payload_ := [1; 2; 3] |})
    by (unfold fits_vector, payload_size, vector_max_size; simpl; lia).
  split; [exact H |].
  apply (Serialize_idempotent {| command_ := 0x21; payload_ := [1; 2; 3] |}
           [] [5; 5; 5; 5] H).
Defined.

(** C9. For every integer command value, negative values and values above
    255 included, construction succeeds, and byte 3 of the buffer
    serialized afterwards is [command mod 256]. *)
Theorem command_reduced_to_low_byte (command : Z) (payload buf : list Z) :
  is_int (Z.of_nat (length payload)) ->
  exists m out,
    WsgCommandMessage_new command payload (Z.of_nat (length payload)) = Returns m
    /\ command_ m = command
    /\ Serialize {| this := m; buffer := buf |} = Returns {| this := m; buffer := out |}
    /\ out !! 3%nat = Some (command mod 256).
Proof.
  intros Hint.
  destruct (encode_returns command payload buf Hint) as (crc & Hnew & _ & Hser).
  set (m := {| command_ := command; payload_ := payload |}) in *.
  exists m, (frame_bytes m crc).
  split; [exact Hnew |]. split; [reflexivity |]. split; [exact Hser |].
  rewrite <- land_0xFF_mod. apply (frame_lookup_command m crc).
Qed.

Lemma command_reduced_to_low_byte_witness :
  is_int (Z.of_nat (length [1; 2]))
  /\ exists m out,
    WsgCommandMessage_new (-1) [1; 2] (Z.of_nat (length [1; 2])) = Returns m
    /\ command_ m = -1
    /\ Serialize {| this := m; buffer := [] |} = Returns {| this := m; buffer := out |}
    /\ out !! 3%nat = Some ((-1) mod 256).
Proof.
  assert (H : is_int (Z.of_nat (length [1; 2]))) by (unfold is_int; simpl; lia).
  split; [exact H | apply (command_reduced_to_low_byte (-1) [1; 2] [] H)].
Defined.

(** C10. The buffer after [Serialize] depends on the object's command and
    payload only: from any two initial states of the caller's vector, of
    any sizes and contents, the call leaves the same bytes, namely header,
    payload and checksum of that object. *)
Theorem Serialize_ignores_prior_buffer (m : WsgCommandMessage) (buf1 buf2 : list Z) :
  fits_vector m ->
  exists out crc,
    Serialize {| this := m; buffer := buf1 |} = Returns {| this := m; buffer := out |}
    /\ Serialize {| this := m; buffer := buf2 |} = Returns {| this := m; buffer := out |}
    /\ out = frame_bytes m crc
    /\ checksum_update_crc16 (header_bytes m ++ payload_ m) (to_int (payload_size m + 6))
       = Returns crc.
Proof.
  intros Hfit.
  destruct (Serialize_returns m buf1 Hfit) as (crc & Hcrc & Hser1).
  destruct (Serialize_returns m buf2 Hfit) as (crc' & Hcrc' & Hser2).
  assert (crc' = crc) by congruence. subst crc'.
  exists (frame_bytes m crc), crc.
  repeat split; assumption.
Qed.

Lemma Serialize_ignores_prior_buffer_witness :
  fits_vector {| command_ := 0x25; payload_ := [] |}
  /\ exists out crc,
    Serialize {| this := {| command_ := 0x25; payload_ := [] |};
                 buffer := [] |}
    = Returns {| this := {| command_ := 0x25; payload_ := [] |}; buffer := out |}
    /\ Serialize {| this := {| command_ := 0x25; payload_ := [] |};
                    buffer := [1; 2; 3; 4; 5; 6; 7; 8; 9; 10; 11; 12] |}
       = Returns {| this := {| command_ := 0x25; payload_ := [] |}; buffer := out |}
    /\ out = frame_bytes {| command_ := 0x25; payload_ := [] |} crc
    /\ checksum_update_crc16
         (header_bytes {| command_ := 0x25; payload_ := [] |}
          ++ payload_ {| command_ := 0x25; payload_ := [] |})
         (to_int (payload_size {| command_ := 0x25; payload_ := [] |} + 6))
       = Returns crc.
Proof.
  assert (H : fits_vector {| command_ := 0x25; payload_ := [] |})
    by (unfold fits_vector, payload_size, vector_max_size; simpl; lia).
  split; [exact H |].
  apply (Serialize_ignores_prior_buffer {| command_ := 0x25; payload_ := [] |}
           [] [1; 2; 3; 4; 5; 6; 7; 8; 9; 10; 11; 12] H).
Defined.

(** ** Further properties of the checksum *)

Section Checksum_algebra.

Lemma lxor_cancel_r (a b c : Z) : Z.lxor a c = Z.lxor b c -> a = b.
Proof.
  intros H.
  assert (Hinv : forall x, Z.lxor (Z.lxor x c) c = x)
    by (intros x; rewrite Z.lxor_assoc, Z.lxor_nilpotent, Z.lxor_0_r; reflexivity).
  rewrite <- (Hinv a), H. apply Hinv.
Qed.

Lemma land_lxor_0xFF (a b : Z) :
  Z.land (Z.lxor a b) 0xFF = Z.lxor (Z.land a 0xFF) (Z.land b 0xFF).
Proof.
  apply Z.bits_inj'. intros k _.
  rewrite Z.lxor_spec, !Z.land_spec, Z.lxor_spec.
  destruct (Z.testbit a k), (Z.testbit b k), (Z.testbit 0xFF k); reflexivity.
Qed.

(** A value XORed with its own low byte has an empty low byte. *)
Lemma low_byte_cancels (x : Z) : Z.land (Z.lxor x (Z.land x 0xFF)) 0xFF = 0.
Proof.
  apply Z.bits_inj'. intros k _.
  rewrite Z.land_spec, Z.lxor_spec, Z.land_spec, Z.bits_0.
  destruct (Z.testbit x k), (Z.testbit 0xFF k); reflexivity.
Qed.

Lemma shiftr_8_uchar (x : Z) : is_uint16 x -> is_uchar (Z.shiftr x 8).
Proof.
  unfold is_uint16, is_uchar. intros Hx. rewrite Z.shiftr_div_pow2 by lia.
  change (2 ^ 8) with 256. change (2 ^ 16) with 65536 in Hx.
  split.
  - apply Z.div_pos; lia.
  - apply Z.div_lt_upper_bound; lia.
Qed.

Lemma land_0xFF_id (x : Z) : is_uchar x -> Z.land x 0xFF = x.
Proof.
  unfold is_uchar. intros Hx. rewrite land_0xFF_mod.
  apply Z.mod_small. change (2 ^ 8) with 256 in Hx. lia.
Qed.

(** Two distinct indices never read the same table entry. *)
Lemma CRC_TABLE_at_injective (i j : Z) :
  0 <= i < 256 -> 0 <= j < 256 -> CRC_TABLE_at i = CRC_TABLE_at j -> i = j.
Proof.
  intros Hi Hj Heq.
  assert (H : forallb (fun a => forallb (fun b =>
                implb (CRC_TABLE_at (Z.of_nat a) =? CRC_TABLE_at (Z.of_nat b))
                      (Nat.eqb a b)) (seq 0 256)) (seq 0 256) = true)
    by (vm_compute; reflexivity).
  rewrite forallb_forall in H.
  specialize (H (Z.to_nat i)). rewrite forallb_forall in H.
  assert (Hin : forall k, 0 <= k < 256 -> In (Z.to_nat k) (seq 0 256))
    by (intros k Hk; apply in_seq; lia).
  specialize (H (Hin i Hi) (Z.to_nat j) (Hin j Hj)).
  rewrite !Z2Nat.id in H by lia.
  rewrite Heq, Z.eqb_refl in H. simpl in H.
  apply Nat.eqb_eq in H. lia.
Qed.

Lemma crc16_loop_steps (a : list Z) : forall crc,
  crc16_loop (length a) a crc = Returns (fold_left crc16_step a crc).
Proof.
  induction a as [| b a IH]; intros crc; simpl; [reflexivity | apply IH].
Qed.

(** After the bytes of [a] the loop goes on over [b] from the value
    reached. *)
Lemma crc16_loop_continue (a b : list Z) (n : nat) : forall crc,
  crc16_loop (length a + n) (a ++ b) crc = crc16_loop n b (fold_left crc16_step a crc).
Proof.
  induction a as [| x a IH]; intros crc; simpl; [reflexivity | apply IH].
Qed.

Lemma fold_crc16_step_uint16 (a : list Z) : forall crc,
  is_uint16 crc -> is_uint16 (fold_left crc16_step a crc).
Proof.
  induction a as [| b a IH]; intros crc Hcrc; simpl; [exact Hcrc |].
  apply IH, crc16_step_uint16.
Qed.

Lemma crc16_loop_past_the_end (n : nat) : forall data crc,
  (length data < n)%nat -> crc16_loop n data crc = Undefined.
Proof.
  induction n as [| n IH]; intros data crc Hn; [lia |].
  destruct data as [| b data]; simpl in *; [reflexivity |].
  apply IH. lia.
Qed.

(** Feeding a checksum its own low byte and then its high byte empties
    it. *)
Lemma crc16_step_residue (crc : Z) :
  is_uint16 crc ->
  crc16_step (crc16_step crc (Z.land crc 0xFF)) (Z.land (Z.shiftr crc 8) 0xFF) = 0.
Proof.
  intros Hcrc.
  assert (Hlow : crc16_step crc (Z.land crc 0xFF) = Z.shiftr crc 8).
  { rewrite crc16_step_no_wrap by exact Hcrc.
    rewrite low_byte_cancels. change (CRC_TABLE_at 0) with 0.
    apply Z.lxor_0_l. }
  rewrite Hlow.
  pose proof (shiftr_8_uchar crc Hcrc) as Hh.
  rewrite (land_0xFF_id _ Hh).
  rewrite crc16_step_no_wrap by (apply shiftr_8_uint16, Hcrc).
  rewrite Z.lxor_nilpotent. change (CRC_TABLE_at (Z.land 0 0xFF)) with 0.
  rewrite Z.lxor_0_l.
  unfold is_uchar in Hh. rewrite (Z.shiftr_div_pow2 (Z.shiftr crc 8)) by lia.
  apply Z.div_small. exact Hh.
Qed.

Lemma checksum_with_trailer (bytes : list Z) (crc : Z) :
  checksum_update_crc16 bytes (Z.of_nat (length bytes)) = Returns crc ->
  checksum_update_crc16
    (bytes ++ [Z.land crc 0xFF; Z.land (Z.shiftr crc 8) 0xFF])
    (Z.of_nat (length bytes) + 2) = Returns 0.
Proof.
  unfold checksum_update_crc16. rewrite Nat2Z.id, crc16_loop_steps.
  intros [= <-].
  replace (Z.to_nat (Z.of_nat (length bytes) + 2)) with (length bytes + 2)%nat by lia.
  rewrite crc16_loop_continue. simpl.
  rewrite crc16_step_residue; [reflexivity |].
  apply fold_crc16_step_uint16. unfold is_uint16. lia.
Qed.

End Checksum_algebra.

(** X1. For every byte sequence, the checksum of the sequence followed by
    its own checksum, low byte first, is zero. *)
Theorem checksum_residue_zero (bytes : list Z) :
  exists crc,
    checksum_update_crc16 bytes (Z.of_nat (length bytes)) = Returns crc
    /\ checksum_update_crc16
         (bytes ++ [Z.land crc 0xFF; Z.land (Z.shiftr crc 8) 0xFF])
         (Z.of_nat (length bytes) + 2) = Returns 0.
Proof.
  exists (fold_left crc16_step bytes 0xFFFF).
  assert (H : checksum_update_crc16 bytes (Z.of_nat (length bytes))
              = Returns (fold_left crc16_step bytes 0xFFFF))
    by (unfold checksum_update_crc16; rewrite Nat2Z.id; apply crc16_loop_steps).
  split; [exact H | apply checksum_with_trailer, H].
Qed.

(** X3. With a size that does not exceed the array, the checksum is a
    16-bit value that depends on the first [size] bytes only: it is the
    fold over that prefix (over nothing when [size] is zero or negative),
    whatever follows in memory. *)
Theorem checksum_covers_prefix (data extra : list Z) (size : Z) :
  size <= Z.of_nat (length data) ->
  checksum_update_crc16 data size = Returns (crc16_fold (take (Z.to_nat size) data))
  /\ is_uint16 (crc16_fold (take (Z.to_nat size) data))
  /\ checksum_update_crc16 (data ++ extra) size = checksum_update_crc16 data size.
Proof.
  intros Hsize.
  assert (Hn : (Z.to_nat size <= length data)%nat) by lia.
  assert (Hret : checksum_update_crc16 data size
                 = Returns (crc16_fold (take (Z.to_nat size) data))).
  { unfold checksum_update_crc16, crc16_fold.
    rewrite <- crc16_loop_take by exact Hn.
    rewrite <- (crc16_loop_fold (take (Z.to_nat size) data))
      by (unfold is_uint16; lia).
    rewrite length_take. f_equal. lia. }
  split; [exact Hret |]. split.
  - apply (checksum_result_uint16 data size), Hret.
  - apply crc16_loop_app, Hn.
Qed.

Lemma checksum_covers_prefix_witness :
  2 <= Z.of_nat (length [0xAA; 0x25; 0x07])
  /\ checksum_update_crc16 [0xAA; 0x25; 0x07] 2
     = Returns (crc16_fold (take (Z.to_nat 2) [0xAA; 0x25; 0x07]))
  /\ is_uint16 (crc16_fold (take (Z.to_nat 2) [0xAA; 0x25; 0x07]))
  /\ checksum_update_crc16 ([0xAA; 0x25; 0x07] ++ [1; 2]) 2
     = checksum_update_crc16 [0xAA; 0x25; 0x07] 2.
Proof.
  assert (H : 2 <= Z.of_nat (length [0xAA; 0x25; 0x07])) by (simpl; lia).
  split; [exact H | apply (checksum_covers_prefix [0xAA; 0x25; 0x07] [1; 2] 2 H)].
Defined.

(** X4. A size larger than the array makes the loop read past its end:
    the call has no defined result. *)
Theorem checksum_past_the_end (data : list Z) (size : Z) :
  Z.of_nat (length data) < size -> checksum_update_crc16 data size = Undefined.
Proof.
  intros Hsize. apply crc16_loop_past_the_end. lia.
Qed.

Lemma checksum_past_the_end_witness :
  Z.of_nat (length [1; 2; 3]) < 4 /\ checksum_update_crc16 [1; 2; 3] 4 = Undefined.
Proof.
  assert (H : Z.of_nat (length [1; 2; 3]) < 4) by (simpl; lia).
  split; [exact H | apply (checksum_past_the_end [1; 2; 3] 4 H)].
Defined.

(** X5. Two byte sequences that differ in their last byte only never have
    the same checksum. *)
Theorem checksum_last_byte_sensitive (bytes : list Z) (b1 b2 : Z) :
  is_uchar b1 -> is_uchar b2 -> b1 <> b2 ->
  exists c1 c2,
    checksum_update_crc16 (bytes ++ [b1]) (Z.of_nat (length bytes) + 1) = Returns c1
    /\ checksum_update_crc16 (bytes ++ [b2]) (Z.of_nat (length bytes) + 1) = Returns c2
    /\ c1 <> c2.
Proof.
  intros H1 H2 Hne.
  set (crc := fold_left crc16_step bytes 0xFFFF).
  assert (Hcrc : is_uint16 crc)
    by (apply fold_crc16_step_uint16; unfold is_uint16; lia).
  assert (Hrun : forall b, checksum_update_crc16 (bytes ++ [b]) (Z.of_nat (length bytes) + 1)
                           = Returns (crc16_step crc b)).
  { intros b. unfold checksum_update_crc16.
    replace (Z.to_nat (Z.of_nat (length bytes) + 1)) with (length bytes + 1)%nat by lia.
    rewrite crc16_loop_continue. reflexivity. }
  exists (crc16_step crc b1), (crc16_step crc b2).
  split; [apply Hrun |]. split; [apply Hrun |].
  intros Heq. apply Hne.
  rewrite !crc16_step_no_wrap in Heq by exact Hcrc.
  apply lxor_cancel_r in Heq.
  apply CRC_TABLE_at_injective in Heq.
  - rewrite !land_lxor_0xFF in Heq.
    rewrite !(Z.lxor_comm (Z.land crc 0xFF)) in Heq.
    apply lxor_cancel_r in Heq.
    rewrite !land_0xFF_id in Heq by assumption. exact Heq.
  - pose proof (land_0xFF_uchar (Z.lxor crc b1)) as H. unfold is_uchar in H.
    change (2 ^ 8) with 256 in H. exact H.
  - pose proof (land_0xFF_uchar (Z.lxor crc b2)) as H. unfold is_uchar in H.
    change (2 ^ 8) with 256 in H. exact H.
Qed.

Lemma checksum_last_byte_sensitive_witness :
  is_uchar 0x25 /\ is_uchar 0x26 /\ 0x25 <> 0x26
  /\ exists c1 c2,
    checksum_update_crc16 ([0xAA; 0xAA; 0xAA] ++ [0x25])
      (Z.of_nat (length [0xAA; 0xAA; 0xAA]) + 1) = Returns c1
    /\ checksum_update_crc16 ([0xAA; 0xAA; 0xAA] ++ [0x26])
         (Z.of_nat (length [0xAA; 0xAA; 0xAA]) + 1) = Returns c2
    /\ c1 <> c2.
Proof.
  assert (H1 : is_uchar 0x25) by (unfold is_uchar; lia).
  assert (H2 : is_uchar 0x26) by (unfold is_uchar; lia).
  assert (Hne : 0x25 <> 0x26) by discriminate.
  split; [exact H1 |]. split; [exact H2 |]. split; [exact Hne |].
  apply (checksum_last_byte_sensitive [0xAA; 0xAA; 0xAA] 0x25 0x26 H1 H2 Hne).
Defined.

(** ** Further properties of the constructor *)

(** X6. With a non-negative size within the caller's array the
    constructor copies exactly the first [size] bytes; what follows them
    in the array has no influence on the object. *)
Theorem new_copies_first_bytes (command : Z) (payload extra : list Z) (size : Z) :
  is_int size -> 0 <= size <= Z.of_nat (length payload) ->
  WsgCommandMessage_new command payload size
  = Returns {| command_ := command; payload_ := take (Z.to_nat size) payload |}
  /\ WsgCommandMessage_new command (payload ++ extra) size
     = WsgCommandMessage_new command payload size.
Proof.
  intros Hint Hsize.
  rewrite !WsgCommandMessage_new_returns
    by (try rewrite length_app; auto; lia).
  split; [reflexivity |].
  rewrite take_app_le by lia. reflexivity.
Qed.

Lemma new_copies_first_bytes_witness :
  is_int 2 /\ 0 <= 2 <= Z.of_nat (length [7; 8; 9])
  /\ WsgCommandMessage_new 0x30 [7; 8; 9] 2
     = Returns {| command_ := 0x30; payload_ := take (Z.to_nat 2) [7; 8; 9] |}
  /\ WsgCommandMessage_new 0x30 ([7; 8; 9] ++ [1]) 2
     = WsgCommandMessage_new 0x30 [7; 8; 9] 2.
Proof.
  assert (H1 : is_int 2) by (unfold is_int; lia).
  assert (H2 : 0 <= 2 <= Z.of_nat (length [7; 8; 9])) by (simpl; lia).
  split; [exact H1 |]. split; [exact H2 |].
  apply (new_copies_first_bytes 0x30 [7; 8; 9] [1] 2 H1 H2).
Defined.

(** X7. A negative size is converted to a [size_t] beyond the vector's
    maximum size: the constructor throws [length_error] from [resize],
    for every command and array. *)
Theorem new_negative_size_throws (command : Z) (payload : list Z) (size : Z) :
  is_int size -> size < 0 ->
  WsgCommandMessage_new command payload size = Throws length_error.
Proof.
  unfold is_int. intros Hint Hneg.
  unfold WsgCommandMessage_new, vector_resize, vector_max_size.
  assert (Hconv : to_size_t size = size + 2 ^ 64).
  { unfold to_size_t. symmetry. apply (Z.mod_unique _ _ (-1)); lia. }
  rewrite Hconv. rewrite decide_True by lia. reflexivity.
Qed.

Lemma new_negative_size_throws_witness :
  is_int (-1) /\ -1 < 0 /\ WsgCommandMessage_new 0x25 [1; 2] (-1) = Throws length_error.
Proof.
  assert (H1 : is_int (-1)) by (unfold is_int; lia).
  assert (H2 : -1 < 0) by lia.
  split; [exact H1 |]. split; [exact H2 |].
  apply (new_negative_size_throws 0x25 [1; 2] (-1) H1 H2).
Defined.

(** X8. A size larger than the caller's array makes [memcpy] read past
    its end: the construction has no defined result. *)
Theorem new_size_past_the_end (command : Z) (payload : list Z) (size : Z) :
  is_int size -> Z.of_nat (length payload) < size ->
  WsgCommandMessage_new command payload size = Undefined.
Proof.
  unfold is_int. intros Hint Hsize.
  unfold WsgCommandMessage_new, vector_resize, vector_max_size.
  rewrite to_size_t_id by lia.
  rewrite decide_False by lia. rewrite bind_Returns.
  unfold memcpy. rewrite decide_False by lia. reflexivity.
Qed.

Lemma new_size_past_the_end_witness :
  is_int 3 /\ Z.of_nat (length [1; 2]) < 3
  /\ WsgCommandMessage_new 0x25 [1; 2] 3 = Undefined.
Proof.
  assert (H1 : is_int 3) by (unfold is_int; lia).
  assert (H2 : Z.of_nat (length [1; 2]) < 3) by (simpl; lia).
  split; [exact H1 |]. split; [exact H2 |].
  apply (new_size_past_the_end 0x25 [1; 2] 3 H1 H2).
Defined.

(** ** Further properties of [Serialize] *)

Lemma Serialize_length_field_witness :
  fits_vector {| command_ := 0x21; payload_ := [1; 2; 3] |}
  /\ exists out,
    Serialize {| this := {| command_ := 0x21; payload_ := [1; 2; 3] |}; buffer := [] |}
    = Returns {| this := {| command_ := 0x21; payload_ := [1; 2; 3] |}; buffer := out |}
    /\ out !! 4%nat = Some (payload_size {| command_ := 0x21; payload_ := [1; 2; 3] |} mod 256)
    /\ out !! 5%nat = Some 0.
Proof.
  assert (H : fits_vector {| command_ := 0x21; payload_ := [1; 2; 3] |})
    by (unfold fits_vector, payload_size, vector_max_size; simpl; lia).
  split; [exact H |].
  apply (Serialize_length_field {| command_ := 0x21; payload_ := [1; 2; 3] |} [] H).
Defined.

Lemma Serialize_length_field_short_witness :
  payload_size {| command_ := 0x21; payload_ := [1; 2; 3] |} <= 255
  /\ exists out lo hi,
    Serialize {| this := {| command_ := 0x21; payload_ := [1; 2; 3] |}; buffer := [] |}
    = Returns {| this := {| command_ := 0x21; payload_ := [1; 2; 3] |}; buffer := out |}
    /\ out !! 4%nat = Some lo /\ out !! 5%nat = Some hi
    /\ lo + 256 * hi = payload_size {| command_ := 0x21; payload_ := [1; 2; 3] |}.
Proof.
  assert (H : payload_size {| command_ := 0x21; payload_ := [1; 2; 3] |} <= 255)
    by (unfold payload_size; simpl; lia).
  split; [exact H |].
  apply (Serialize_length_field_short {| command_ := 0x21; payload_ := [1; 2; 3] |} [] H).
Defined.

Lemma Serialize_output_uchar_witness :
  fits_vector {| command_ := -7; payload_ := [0; 255] |}
  /\ Forall is_uchar (payload_ {| command_ := -7; payload_ := [0; 255] |})
  /\ exists out,
    Serialize {| this := {| command_ := -7; payload_ := [0; 255] |}; buffer := [1000] |}
    = Returns {| this := {| command_ := -7; payload_ := [0; 255] |}; buffer := out |}
    /\ Forall is_uchar out.
Proof.
  assert (H1 : fits_vector {| command_ := -7; payload_ := [0; 255] |})
    by (unfold fits_vector, payload_size, vector_max_size; simpl; lia).
  assert (H2 : Forall is_uchar (payload_ {| command_ := -7; payload_ := [0; 255] |})).
  { simpl. repeat (apply List.Forall_cons; [unfold is_uchar; lia |]). apply List.Forall_nil. }
  split; [exact H1 |]. split; [exact H2 |].
  apply (Serialize_output_uchar {| command_ := -7; payload_ := [0; 255] |} [1000] H1 H2).
Defined.

(** X2. For every valid command and payload, running the checksum over
    the whole serialized frame, trailer included, gives zero. *)
Theorem Serialize_frame_checks_to_zero (command : Z) (payload buf : list Z) :
  valid_arguments command payload ->
  exists m out,
    WsgCommandMessage_new command payload (Z.of_nat (length payload)) = Returns m
    /\ Serialize {| this := m; buffer := buf |} = Returns {| this := m; buffer := out |}
    /\ checksum_update_crc16 out (Z.of_nat (length out)) = Returns 0.
Proof.
  intros Hvalid.
  destruct (encode_returns command payload buf (valid_arguments_int _ _ Hvalid))
    as (crc & Hnew & Hcrc & Hser).
  rewrite (valid_checksum_size _ _ Hvalid) in Hcrc.
  set (m := {| command_ := command; payload_ := payload |}) in *.
  exists m, (frame_bytes m crc).
  split; [exact Hnew |]. split; [exact Hser |].
  assert (Hlen : Z.of_nat (length (header_bytes m ++ payload))
                 = Z.of_nat (length payload) + 6)
    by (rewrite length_app, header_bytes_length; lia).
  rewrite <- Hlen in Hcrc.
  pose proof (checksum_with_trailer _ _ Hcrc) as Hzero.
  rewrite frame_length. cbn [payload_ m].
  unfold frame_bytes, checksum_bytes. cbn [payload_ m].
  rewrite !to_uchar_land, app_assoc.
  replace (Z.of_nat (length payload + 8))
    with (Z.of_nat (length (header_bytes m ++ payload)) + 2) by lia.
  exact Hzero.
Qed.

Lemma Serialize_frame_checks_to_zero_witness :
  valid_arguments 0x21 [1; 2; 3; 4]
  /\ exists m out,
    WsgCommandMessage_new 0x21 [1; 2; 3; 4] (Z.of_nat (length [1; 2; 3; 4])) = Returns m
    /\ Serialize {| this := m; buffer := [] |} = Returns {| this := m; buffer := out |}
    /\ checksum_update_crc16 out (Z.of_nat (length out)) = Returns 0.
Proof.
  assert (H : valid_arguments 0x21 [1; 2; 3; 4]).
  { unfold valid_arguments. split; [lia |]. split; [simpl; lia |].
    repeat (apply List.Forall_cons; [unfold is_uchar; lia |]). apply List.Forall_nil. }
  split; [exact H | apply (Serialize_frame_checks_to_zero 0x21 [1; 2; 3; 4] [] H)].
Defined.

(** X12. Two objects with 8-bit commands that serialize to the same
    bytes have the same command and the same payload: the frame
    determines the message. *)
Theorem Serialize_injective (m1 m2 : WsgCommandMessage) (buf1 buf2 out : list Z) :
  0 <= command_ m1 <= 255 -> 0 <= command_ m2 <= 255 ->
  fits_vector m1 -> fits_vector m2 ->
  Serialize {| this := m1; buffer := buf1 |} = Returns {| this := m1; buffer := out |} ->
  Serialize {| this := m2; buffer := buf2 |} = Returns {| this := m2; buffer := out |} ->
  m1 = m2.
Proof.
  intros Hc1 Hc2 Hfit1 Hfit2 Hs1 Hs2.
  destruct (Serialize_returns m1 buf1 Hfit1) as (crc1 & _ & Hr1).
  destruct (Serialize_returns m2 buf2 Hfit2) as (crc2 & _ & Hr2).
  rewrite Hr1 in Hs1. rewrite Hr2 in Hs2.
  injection Hs1 as Ho1. injection Hs2 as Ho2.
  assert (Heq : frame_bytes m1 crc1 = frame_bytes m2 crc2) by congruence.
  assert (Hlen : length (payload_ m1) = length (payload_ m2)).
  { apply (f_equal length) in Heq. rewrite !frame_length in Heq. lia. }
  unfold frame_bytes in Heq.
  apply app_inj_1 in Heq; [| reflexivity].
  destruct Heq as [Hhdr Hrest].
  apply app_inj_1 in Hrest; [| exact Hlen].
  destruct Hrest as [Hpay _].
  unfold header_bytes in Hhdr. injection Hhdr as Hcmd _ _.
  rewrite !to_uchar_land, !land_0xFF_mod in Hcmd.
  rewrite !Z.mod_small in Hcmd by lia.
  destruct m1, m2. simpl in *. congruence.
Qed.

Lemma Serialize_injective_witness :
  0 <= command_ {| command_ := 0x25; payload_ := [4; 2] |} <= 255
  /\ fits_vector {| command_ := 0x25; payload_ := [4; 2] |}
  /\ Serialize {| this := {| command_ := 0x25; payload_ := [4; 2] |}; buffer := [] |}
     = Returns {| this := {| command_ := 0x25; payload_ := [4; 2] |};
                  buffer := [0xAA; 0xAA; 0xAA; 0x25; 2; 0; 4; 2; 0x2C; 0x76] |}
  /\ Serialize {| this := {| command_ := 0x25; payload_ := [4; 2] |}; buffer := [9] |}
     = Returns {| this := {| command_ := 0x25; payload_ := [4; 2] |};
                  buffer := [0xAA; 0xAA; 0xAA; 0x25; 2; 0; 4; 2; 0x2C; 0x76] |}
  /\ {| command_ := 0x25; payload_ := [4; 2] |} = {| command_ := 0x25; payload_ := [4; 2] |}.
Proof.
  assert (Hc : 0 <= command_ {| command_ := 0x25; payload_ := [4; 2] |} <= 255)
    by (simpl; lia).
  assert (Hf : fits_vector {| command_ := 0x25; payload_ := [4; 2] |})
    by (unfold fits_vector, payload_size, vector_max_size; simpl; lia).
  assert (H1 : Serialize {| this := {| command_ := 0x25; payload_ := [4; 2] |}; buffer := [] |}
     = Returns {| this := {| command_ := 0x25; payload_ := [4; 2] |};
                  buffer := [0xAA; 0xAA; 0xAA; 0x25; 2; 0; 4; 2; 0x2C; 0x76] |})
    by (vm_compute; reflexivity).
  assert (H2 : Serialize {| this := {| command_ := 0x25; payload_ := [4; 2] |}; buffer := [9] |}
     = Returns {| this := {| command_ := 0x25; payload_ := [4; 2] |};
                  buffer := [0xAA; 0xAA; 0xAA; 0x25; 2; 0; 4; 2; 0x2C; 0x76] |})
    by (vm_compute; reflexivity).
  split; [exact Hc |]. split; [exact Hf |]. split; [exact H1 |]. split; [exact H2 |].
  apply (Serialize_injective _ _ [] [9] _ Hc Hc Hf Hf H1 H2).
Defined.

(** X13. When the payload size plus six no longer fits an [int] (from
    2^31 to 2^32), the size handed to the checksum is zero or negative:
    no byte is checksummed and the trailer is 0xFF 0xFF whatever the
    command and payload bytes are. *)
Theorem Serialize_checksum_size_overflow (m : WsgCommandMessage) (buf : list Z) :
  fits_vector m ->
  2 ^ 31 <= payload_size m + 6 <= 2 ^ 32 ->
  exists out,
    Serialize {| this := m; buffer := buf |} = Returns {| this := m; buffer := out |}
    /\ out = header_bytes m ++ payload_ m ++ [0xFF; 0xFF].
Proof.
  intros Hfit Hsize.
  destruct (Serialize_returns m buf Hfit) as (crc & Hcrc & Hser).
  assert (Hconv : to_int (payload_size m + 6) = payload_size m + 6 - 2 ^ 32).
  { unfold to_int.
    replace ((payload_size m + 6 + 2 ^ 31) mod 2 ^ 32)
      with (payload_size m + 6 + 2 ^ 31 - 2 ^ 32); [lia |].
    apply (Z.mod_unique _ _ 1); lia. }
  unfold checksum_update_crc16 in Hcrc. rewrite Hconv in Hcrc.
  replace (Z.to_nat (payload_size m + 6 - 2 ^ 32)) with 0%nat in Hcrc by lia.
  simpl in Hcrc. injection Hcrc as <-.
  exists (frame_bytes m 0xFFFF). split; [exact Hser | reflexivity].
Qed.

Lemma Serialize_checksum_size_overflow_witness :
  fits_vector {| command_ := 0x25; payload_ := replicate (Z.to_nat (2 ^ 31 - 6)) 0 |}
  /\ 2 ^ 31 <= payload_size {| command_ := 0x25;
                               payload_ := replicate (Z.to_nat (2 ^ 31 - 6)) 0 |} + 6
             <= 2 ^ 32
  /\ exists out,
    Serialize {| this := {| command_ := 0x25;
                            payload_ := replicate (Z.to_nat (2 ^ 31 - 6)) 0 |};
                 buffer := [] |}
    = Returns {| this := {| command_ := 0x25;
                            payload_ := replicate (Z.to_nat (2 ^ 31 - 6)) 0 |};
                 buffer := out |}
    /\ out = header_bytes {| command_ := 0x25;
                             payload_ := replicate (Z.to_nat (2 ^ 31 - 6)) 0 |}
             ++ payload_ {| command_ := 0x25;
                            payload_ := replicate (Z.to_nat (2 ^ 31 - 6)) 0 |}
             ++ [0xFF; 0xFF].
Proof.
  assert (Hlen : payload_size {| command_ := 0x25;
                                 payload_ := replicate (Z.to_nat (2 ^ 31 - 6)) 0 |}
                 = 2 ^ 31 - 6).
  { unfold payload_size. cbn [payload_]. rewrite length_replicate. apply Z2Nat.id. lia. }
  assert (H1 : fits_vector {| command_ := 0x25;
                              payload_ := replicate (Z.to_nat (2 ^ 31 - 6)) 0 |})
    by (unfold fits_vector, vector_max_size; rewrite Hlen; lia).
  assert (H2 : 2 ^ 31 <= payload_size {| command_ := 0x25;
                              payload_ := replicate (Z.to_nat (2 ^ 31 - 6)) 0 |} + 6
                      <= 2 ^ 32)
    by (rewrite Hlen; lia).
  split; [exact H1 |]. split; [exact H2 |].
  apply (Serialize_checksum_size_overflow _ [] H1 H2).
Defined.

(** ** The enumerations *)

(** X14. Every [Command] code is an 8-bit value that the frame carries
    unreduced at offset 3, and no two commands share a code: byte 3
    identifies the command. *)
Theorem Command_code_on_the_wire (c : Command) (payload buf : list Z) :
  is_int (Z.of_nat (length payload)) ->
  exists m out,
    WsgCommandMessage_new (Command_value c) payload (Z.of_nat (length payload)) = Returns m
    /\ Serialize {| this := m; buffer := buf |} = Returns {| this := m; buffer := out |}
    /\ out !! 3%nat = Some (Command_value c)
    /\ 0 <= Command_value c <= 255
    /\ forall c', Command_value c' = Command_value c -> c' = c.
Proof.
  intros Hint.
  destruct (encode_returns (Command_value c) payload buf Hint) as (crc & Hnew & _ & Hser).
  set (m := {| command_ := Command_value c; payload_ := payload |}) in *.
  assert (Hrange : 0 <= Command_value c <= 255) by (destruct c; simpl; lia).
  exists m, (frame_bytes m crc).
  split; [exact Hnew |]. split; [exact Hser |]. split; [| split].
  - rewrite frame_lookup_command. cbn [command_ m].
    rewrite land_0xFF_mod, Z.mod_small by lia. reflexivity.
  - exact Hrange.
  - intros c' Heq. destruct c', c; simpl in Heq; try reflexivity; discriminate Heq.
Qed.

Lemma Command_code_on_the_wire_witness :
  is_int (Z.of_nat (length [1; 2]))
  /\ exists m out,
    WsgCommandMessage_new (Command_value kGrasp) [1; 2] (Z.of_nat (length [1; 2]))
    = Returns m
    /\ Serialize {| this := m; buffer := [] |} = Returns {| this := m; buffer := out |}
    /\ out !! 3%nat = Some (Command_value kGrasp)
    /\ 0 <= Command_value kGrasp <= 255
    /\ forall c', Command_value c' = Command_value kGrasp -> c' = kGrasp.
Proof.
  assert (H : is_int (Z.of_nat (length [1; 2]))) by (unfold is_int; simpl; lia).
  split; [exact H | apply (Command_code_on_the_wire kGrasp [1; 2] [] H)].
Defined.

(** X15. Every [StateFlag] is a single bit among bits 0 to 20 that is
    none of the reserved bits 8, 10 and 11; it fits the positive range of
    a 32-bit [int]. *)
Theorem StateFlag_single_bit (f : StateFlag) :
  exists k,
    StateFlag_value f = 2 ^ k
    /\ 0 <= k <= 20 /\ k <> 8 /\ k <> 10 /\ k <> 11
    /\ 0 < StateFlag_value f < 2 ^ 21.
Proof.
  destruct f; simpl;
    match goal with
    | |- context [Z.shiftl 1 ?n] => exists n
    end;
    (split; [reflexivity |]); rewrite Z.shiftl_1_l; lia.
Qed.

(** X16. Two different state flags have no bit in common, so each can be
    tested and set in a status word without touching another. *)
Theorem StateFlag_disjoint (f g : StateFlag) :
  f <> g -> Z.land (StateFlag_value f) (StateFlag_value g) = 0.
Proof.
  intros Hne. destruct f, g; try reflexivity; exfalso; apply Hne; reflexivity.
Qed.

Lemma StateFlag_disjoint_witness :
  SF_MOVING <> SF_REFERENCED
  /\ Z.land (StateFlag_value SF_MOVING) (StateFlag_value SF_REFERENCED) = 0.
Proof.
  assert (H : SF_MOVING <> SF_REFERENCED) by discriminate.
  split; [exact H | apply (StateFlag_disjoint SF_MOVING SF_REFERENCED H)].
Defined.

Ltac find_status :=
  first
    [ exists E_SUCCESS; reflexivity | exists E_NOT_AVAILABLE; reflexivity
    | exists E_NO_SENSOR; reflexivity | exists E_NOT_INITIALIZED; reflexivity
    | exists E_ALREADY_RUNNING; reflexivity | exists E_FEATURE_NOT_SUPPORTED; reflexivity
    | exists E_INCONSISTENT_DATA; reflexivity | exists E_TIMEOUT; reflexivity
    | exists E_READ_ERROR; reflexivity | exists E_WRITE_ERROR; reflexivity
    | exists E_INSUFFICIENT_RESOURCES; reflexivity | exists E_CHECKSUM_ERROR; reflexivity
    | exists E_NO_PARAM_EXPECTED; reflexivity | exists E_NOT_ENOUGH_PARAMS; reflexivity
    | exists E_CMD_UNKNOWN; reflexivity | exists E_CMD_FORMAT_ERROR; reflexivity
    | exists E_ACCESS_DENIED; reflexivity | exists E_ALREADY_OPEN; reflexivity
    | exists E_CMD_FAILED; reflexivity | exists E_CMD_ABORTED; reflexivity
    | exists E_INVALID_HANDLE; reflexivity | exists E_NOT_FOUND; reflexivity
    | exists E_NOT_OPEN; reflexivity | exists E_IO_ERROR; reflexivity
    | exists E_INVALID_PARAMETER; reflexivity | exists E_INDEX_OUT_OF_BOUNDS; reflexivity
    | exists E_CMD_PENDING; reflexivity | exists E_OVERRUN; reflexivity
    | exists E_RANGE_ERROR; reflexivity | exists E_AXIS_BLOCKED; reflexivity
    | exists E_FILE_EXISTS; reflexivity ].

(** X17. The status codes number 0 to 30 without gap or repetition:
    every code lies in that range, different codes have different
    numbers, every number in the range is a code, and zero is
    [E_SUCCESS] alone. *)
Theorem StatusCode_numbering :
  (forall e, 0 <= StatusCode_value e <= 30)
  /\ (forall e1 e2, StatusCode_value e1 = StatusCode_value e2 -> e1 = e2)
  /\ (forall n, 0 <= n <= 30 -> exists e, StatusCode_value e = n)
  /\ (forall e, StatusCode_value e = 0 <-> e = E_SUCCESS).
Proof.
  split; [intros e; destruct e; simpl; lia |].
  split; [intros e1 e2 Heq; destruct e1, e2; simpl in Heq;
          try reflexivity; discriminate Heq |].
  split.
  - intros n Hn.
    assert (Hk : exists k : nat, n = Z.of_nat k /\ (k <= 30)%nat)
      by (exists (Z.to_nat n); lia).
    destruct Hk as (k & -> & Hk).
    do 31 (destruct k as [| k]; [find_status |]). lia.
  - intros e. split.
    + destruct e; simpl; intros H; try reflexivity; discriminate H.
    + intros ->. reflexivity.
Qed.
